(** * GeneratorPythia8: event import, sub-event selection and heavy-ion counters

    A shallow embedding of [Generators/src/GeneratorPythia8.cxx] and the
    properties its specification states about it.

    Conventions.
    - C++ [int] / [Int_t] values are integers of [Z].  The code increments
      counters bounded by a container size and divides particle codes,
      neither of which leaves the range of [int].  It also subtracts one
      from the links of a particle, which are data: that subtraction is
      [int_pred], with the wrap-around at the least [int] written out.
    - C++ [double] values are binary64 floats ([float] of the standard
      library).  A C++ [float] is held as the binary64 value it denotes; the
      rounding of a [double] to [float] and the conversion of a [float] to
      [int] are entry points of [RootLib], so that nothing is assumed about
      them.
    - Output reference parameters ([int& nColl], [Event& outputEvent], ...)
      are passed in with their value before the call and returned with
      their value after it.  Where a call can end before its last
      statement and a property depends on what the reference then holds,
      the model returns that value next to the way the call ended.
    - The Pythia8 and ROOT libraries and the logger are not part of the
      repository: the entry points the code calls are the fields of the
      classes [PythiaLib], [RootLib] and [InitLib]; every theorem holds
      for all of their implementations.

    The definitions come first, the theorems follow them. *)

From Stdlib Require Import ZArith Floats Lia Ascii.
From stdpp Require Import gmap list sorting relations strings.

Open Scope Z_scope.

(** ** Outcomes of code that indexes a container *)

(** [Event::operator[]] reads [entry.at(i)]: an index outside the record
    yields no particle and the call does not return normally.  [OutOfFuel]
    is only produced by the bounded unfolding of a loop or of the recursive
    selection lambda.  [Halted] is the end of a call in which a message was
    logged at level [fatal] and the logger did not give control back; only
    [Init] logs at that level. *)
Inductive result (A : Type) : Type :=
| Ok (a : A)
| OutOfRange
| OutOfFuel
| Halted.

Arguments Ok {A} a.
Arguments OutOfRange {A}.
Arguments OutOfFuel {A}.
Arguments Halted {A}.

Definition rbind {A B : Type} (r : result A) (k : A → result B) : result B :=
  match r with
  | Ok a => k a
  | OutOfRange => OutOfRange
  | OutOfFuel => OutOfFuel
  | Halted => Halted
  end.

#[global] Instance result_ret : MRet result := λ A a, Ok a.
#[global] Instance result_bind : MBind result := λ A B k r, rbind r k.

(** ** The Pythia8 data model, as far as the generator reads it *)

Module Particle.

Record t : Type := mk {
  id : Z;
  status : Z;
  mother1 : Z;
  mother2 : Z;
  daughter1 : Z;
  daughter2 : Z;
  px : float;
  py : float;
  pz : float;
  e : float;
  xProd : float;
  yProd : float;
  zProd : float;
  tProd : float
}.

(** [p.mothers(m1, m2)] and [p.daughters(d1, d2)] *)
Definition mothers (m1 m2 : Z) (p : t) : t :=
  mk (id p) (status p) m1 m2 (daughter1 p) (daughter2 p)
     (px p) (py p) (pz p) (e p) (xProd p) (yProd p) (zProd p) (tProd p).

Definition daughters (d1 d2 : Z) (p : t) : t :=
  mk (id p) (status p) (mother1 p) (mother2 p) d1 d2
     (px p) (py p) (pz p) (e p) (xProd p) (yProd p) (zProd p) (tProd p).

(** [xProd(0.); yProd(0.); zProd(0.); tProd(0.)] *)
Definition resetProd (p : t) : t :=
  mk (id p) (status p) (mother1 p) (mother2 p) (daughter1 p) (daughter2 p)
     (px p) (py p) (pz p) (e p) 0%float 0%float 0%float 0%float.

(** The four lineage links of a particle. *)
Definition links (p : t) : list Z :=
  [mother1 p; mother2 p; daughter1 p; daughter2 p].

End Particle.

(** An event record is the vector of its entries. *)
Abbreviation Event := (list Particle.t).

Definition Event_size (ev : Event) : Z := Z.of_nat (length ev).

(** [event[i]] *)
Definition Event_at (ev : Event) (i : Z) : option Particle.t :=
  if decide (0 ≤ i) then ev !! Z.to_nat i else None.

(** [event.append(p)] *)
Definition Event_append (ev : Event) (p : Particle.t) : Event := ev ++ [p].

Module Nucleon.

(** [Pythia8::Nucleon::Status] *)
Inductive Status : Type := UNWOUNDED | ELASTIC | DIFF | ABS.

#[global] Instance Status_eq_dec : EqDecision Status.
Proof. solve_decision. Defined.

Record t : Type := mk {
  id : Z;
  status : Status
}.

End Nucleon.

(** A [Nucleon*]: nucleons are compared by address. *)
Definition NucleonPtr : Type := Z.

Module SubCollision.

Record t : Type := mk {
  proj : NucleonPtr;
  targ : NucleonPtr
}.

End SubCollision.

Module HIInfo.

(** The heavy-ion information: the impact parameter, the sub-collision
    list behind [subCollisionsPtr()], and the nucleons its pointers
    designate. *)
Record t : Type := mk {
  b : float;
  subCollisions : list SubCollision.t;
  nucleon : NucleonPtr → Nucleon.t
}.

End HIInfo.

Module Info.

(** [info.hiInfo] ([info.hiinfo] before Pythia 8.3) is a pointer that is
    null when the run is not a heavy-ion one. *)
Record t : Type := mk {
  hiInfo : option HIInfo.t
}.

End Info.

Module Pythia.

(** The generator object [mPythia]: its event record, its [info] and the
    rest of its internal state. *)
Record t : Type := mk {
  event : Event;
  info : Info.t;
  internal : Z
}.

Definition set_event (ev : Event) (py : t) : t :=
  mk ev (info py) (internal py).

End Pythia.

(** The library entry points called by the generator. *)
Class PythiaLib : Type := {
  PYTHIA_VERSION_INTEGER : Z;
  (** [mPythia.next()] and [mPythia.moreDecays()] *)
  next : Pythia.t → bool * Pythia.t;
  moreDecays : Pythia.t → bool * Pythia.t;
  (** [event[i].daughterList()], computed by the library from the entry
      and the event it belongs to *)
  daughterList : Event → Particle.t → list Z;
  (** [particle.statusHepMC()] *)
  statusHepMC : Particle.t → Z
}.

(** ** ROOT's [TParticle], as constructed by [importParticles] *)

Module TParticle.

Record t : Type := mk {
  fPdgCode : Z;
  fStatusCode : Z;
  fMother1 : Z;
  fMother2 : Z;
  fDaughter1 : Z;
  fDaughter2 : Z;
  fPx : float;
  fPy : float;
  fPz : float;
  fE : float;
  fVx : float;
  fVy : float;
  fVz : float;
  fVt : float;
  (** the bit [ParticleStatus::kToBeDone] *)
  kToBeDone : bool
}.

Definition SetBit_kToBeDone (v : bool) (p : t) : t :=
  mk (fPdgCode p) (fStatusCode p) (fMother1 p) (fMother2 p)
     (fDaughter1 p) (fDaughter2 p) (fPx p) (fPy p) (fPz p) (fE p)
     (fVx p) (fVy p) (fVz p) (fVt p) v.

End TParticle.

(** ** Arithmetic on [int] *)

Definition INT_MIN : Z := -2147483648.
Definition INT_MAX : Z := 2147483647.

(** [x - 1] for an [int x].  The difference leaves the range of [int] for
    [x = INT_MIN] only; the behaviour is then undefined in C++, and the
    two's-complement build stores [INT_MAX]. *)
Definition int_pred (x : Z) : Z :=
  if decide (x = INT_MIN) then INT_MAX else x - 1.

(** ** Counted loops *)

(** [for (int i = lo; i < hi; i++) body], run for the [n] remaining
    iterations starting at index [i]. *)
Fixpoint for_loop {S : Type} (n : nat) (i : Z) (body : Z → S → result S) (s : S)
  : result S :=
  match n with
  | O => Ok s
  | S n' => s' ← body i s; for_loop n' (i + 1) body s'
  end.

Definition for_range {S : Type} (lo hi : Z) (body : Z → S → result S) (s : S)
  : result S :=
  for_loop (Z.to_nat (hi - lo)) lo body s.

(** ** [GeneratorPythia8::generateEvent] and [importParticles] *)

Section Generator.

Context `{PythiaLib}.

(** [o2::mcgenstatus::MCGenStatusEncoding(hepmc, gen).fullEncoding]; the
    encoding lives in another part of O2. *)
Variable MCGenStatusEncoding : Z → Z → Z.

Definition generateEvent (mPythia : Pythia.t) : bool * Pythia.t :=
  let '(ok, mPythia) := next mPythia in
  if negb ok then (false, mPythia)
  else if decide (PYTHIA_VERSION_INTEGER < 8300) then
    (* force production vertices to (0,0,0,0): every entry in index order *)
    let mPythia :=
      Pythia.set_event (Particle.resetProd <$> Pythia.event mPythia) mPythia in
    (* proceed with decays *)
    let '(ok, mPythia) := moreDecays mPythia in
    if negb ok then (false, mPythia) else (true, mPythia)
  else (true, mPythia).

(** The body of the particle loop of [importParticles]. *)
Definition importParticle (particle : Particle.t) : TParticle.t :=
  let pdg := Particle.id particle in
  let st := MCGenStatusEncoding (statusHepMC particle) (Particle.status particle) in
  let m1 := int_pred (Particle.mother1 particle) in
  let m2 := int_pred (Particle.mother2 particle) in
  let d1 := int_pred (Particle.daughter1 particle) in
  let d2 := int_pred (Particle.daughter2 particle) in
  TParticle.SetBit_kToBeDone (bool_decide (statusHepMC particle = 1))
    (TParticle.mk pdg st m1 m2 d1 d2
       (Particle.px particle) (Particle.py particle) (Particle.pz particle)
       (Particle.e particle)
       (Particle.xProd particle) (Particle.yProd particle)
       (Particle.zProd particle) (Particle.tProd particle) false).

Definition importParticles (event : Event) (mParticles : list TParticle.t)
  : result (bool * list TParticle.t) :=
  let nParticles := Event_size event in
  mParticles ←
    for_range 1 nParticles
      (λ iparticle mParticles,
         match Event_at event iparticle with
         | Some particle => Ok (mParticles ++ [importParticle particle])
         | None => OutOfRange
         end)
      mParticles;
  Ok (true, mParticles).

End Generator.

(** ** [GeneratorPythia8::selectFromAncestor] *)

Section SelectFromAncestor.

Context `{PythiaLib}.

(** The recursive lambda [select]: [selected.insert(i)], then one call per
    entry of [inputEvent[i].daughterList()].  The lambda keeps no record of
    the entries it has been called on; [fuel] bounds the depth of the
    unfolding. *)
Fixpoint select (fuel : nat) (inputEvent : Event) (i : Z) (selected : gset Z)
  : result (gset Z) :=
  match fuel with
  | O => OutOfFuel
  | S fuel =>
      let selected := {[i]} ∪ selected in
      match Event_at inputEvent i with
      | None => OutOfRange
      | Some p =>
          fold_left (λ acc j, selected ← acc; select fuel inputEvent j selected)
                    (daughterList inputEvent p) (Ok selected)
      end
  end.

(** [for (auto i : selected)] on a [std::set<int>] visits the indices in
    increasing order. *)
Definition set_iter (selected : gset Z) : list Z :=
  merge_sort Z.le (elements selected).

(** [indexMap[k]] on a [std::map<int, int>]: a key that is absent is
    inserted with the value [0], which is returned. *)
Definition map_index (indexMap : gmap Z Z) (k : Z) : Z * gmap Z Z :=
  match indexMap !! k with
  | Some v => (v, indexMap)
  | None => (0, <[k := 0]> indexMap)
  end.

(** First loop: [indexMap[i] = index++]. *)
Definition assign_indices (selected : list Z) (index : Z) : gmap Z Z * Z :=
  fold_left (λ '(indexMap, index) i, (<[i := index]> indexMap, index + 1))
            selected (∅, index).

(** Body of the second loop.  The particle is read from the generator's own
    event record [mPythia.event], not from [inputEvent]. *)
Definition append_selected (mPythia : Pythia.t) (i : Z)
    (st : gmap Z Z * Event) : result (gmap Z Z * Event) :=
  let '(indexMap, outputEvent) := st in
  match Event_at (Pythia.event mPythia) i with
  | None => OutOfRange
  | Some p =>
      let '(m1, indexMap) := map_index indexMap (Particle.mother1 p) in
      let '(m2, indexMap) := map_index indexMap (Particle.mother2 p) in
      let '(d1, indexMap) := map_index indexMap (Particle.daughter1 p) in
      let '(d2, indexMap) := map_index indexMap (Particle.daughter2 p) in
      let p := Particle.mothers m1 m2 p in
      let p := Particle.daughters d1 d2 p in
      Ok (indexMap, Event_append outputEvent p)
  end.

(** The second loop, [for (auto i : selected) { ... outputEvent.append(p); }].
    [outputEvent] is a reference: when the read of [mPythia.event[i]]
    throws, the particles appended by the earlier iterations stay in it. *)
Fixpoint append_loop (mPythia : Pythia.t) (selected : list Z)
    (indexMap : gmap Z Z) (outputEvent : Event) : Event * result unit :=
  match selected with
  | [] => (outputEvent, Ok ())
  | i :: selected =>
      match append_selected mPythia i (indexMap, outputEvent) with
      | Ok (indexMap, outputEvent) =>
          append_loop mPythia selected indexMap outputEvent
      | OutOfRange => (outputEvent, OutOfRange)
      | OutOfFuel => (outputEvent, OutOfFuel)
      | Halted => (outputEvent, Halted)
      end
  end.

(** [selectFromAncestor(ancestor, inputEvent, outputEvent)]: the output
    event as the call leaves it, and the way the call ends.  The output
    event is an object of its own; the entries that are read lie at indices
    of [inputEvent] and [mPythia.event] as they are on entry. *)
Definition selectFromAncestor_run (fuel : nat) (mPythia : Pythia.t)
    (ancestor : Z) (inputEvent outputEvent : Event) : Event * result unit :=
  (* recursive selection via lambda function *)
  match select fuel inputEvent ancestor ∅ with
  | Ok selected =>
      (* map selected particle index to output index *)
      let '(indexMap, _) :=
        assign_indices (set_iter selected) (Event_size outputEvent) in
      (* adjust mother/daughter indices and append to output event *)
      append_loop mPythia (set_iter selected) indexMap outputEvent
  | OutOfRange => (outputEvent, OutOfRange)
  | OutOfFuel => (outputEvent, OutOfFuel)
  | Halted => (outputEvent, Halted)
  end.

(** The call as seen by a caller to which it returns: the output event
    after the call. *)
Definition selectFromAncestor (fuel : nat) (mPythia : Pythia.t) (ancestor : Z)
    (inputEvent outputEvent : Event) : result Event :=
  let '(outputEvent, r) :=
    selectFromAncestor_run fuel mPythia ancestor inputEvent outputEvent in
  _ ← r; Ok outputEvent.

End SelectFromAncestor.

(** ** Heavy-ion counters *)

(** The four per-side, per-species counters shared by [getNpart] and
    [getNremn]. *)
Record Counts : Type := mkCounts {
  nProtonProj : Z;
  nNeutronProj : Z;
  nProtonTarg : Z;
  nNeutronTarg : Z
}.

Definition zeroCounts : Counts := mkCounts 0 0 0 0.

Definition ABS_status (hi : HIInfo.t) (n : NucleonPtr) : bool :=
  bool_decide (Nucleon.status (HIInfo.nucleon hi n) = Nucleon.ABS).

(** [getNcoll(info, nColl)] *)
Definition getNcoll (info : Info.t) (nColl : Z) : Z :=
  let nColl := 0 in
  match Info.hiInfo info with
  | None => nColl
  | Some hiinfo =>
      (* loop over sub-collisions *)
      fold_left
        (λ nColl sc,
           (* wounded nucleon flag in projectile/target *)
           let pW := ABS_status hiinfo (SubCollision.proj sc) in
           let tW := ABS_status hiinfo (SubCollision.targ sc) in
           (* increase number of collisions if both are wounded *)
           if pW && tW then nColl + 1 else nColl)
        (HIInfo.subCollisions hiinfo) nColl
  end.

Definition wounded (hi : HIInfo.t) (n : NucleonPtr) : bool :=
  bool_decide (Nucleon.status (HIInfo.nucleon hi n) = Nucleon.ABS)
  || bool_decide (Nucleon.status (HIInfo.nucleon hi n) = Nucleon.DIFF).

(** State of the sub-collision loop of [getNpart]: the vectors [projW] and
    [targW] of nucleons already counted, and the counters. *)
Record NpartState : Type := mkNpartState {
  projW : list NucleonPtr;
  targW : list NucleonPtr;
  counts : Counts
}.

(** [std::find(v.begin(), v.end(), n) == v.end()] *)
Definition not_found (v : list NucleonPtr) (n : NucleonPtr) : bool :=
  bool_decide (n ∉ v).

Definition getNpart_proj (hi : HIInfo.t) (sc : SubCollision.t) (st : NpartState)
  : NpartState :=
  let n := SubCollision.proj sc in
  if wounded hi n && not_found (projW st) n then
    let c := counts st in
    let c :=
      if decide (Nucleon.id (HIInfo.nucleon hi n) = 2212) then
        mkCounts (nProtonProj c + 1) (nNeutronProj c) (nProtonTarg c) (nNeutronTarg c)
      else if decide (Nucleon.id (HIInfo.nucleon hi n) = 2112) then
        mkCounts (nProtonProj c) (nNeutronProj c + 1) (nProtonTarg c) (nNeutronTarg c)
      else c in
    mkNpartState (projW st ++ [n]) (targW st) c
  else st.

Definition getNpart_targ (hi : HIInfo.t) (sc : SubCollision.t) (st : NpartState)
  : NpartState :=
  let n := SubCollision.targ sc in
  if wounded hi n && not_found (targW st) n then
    let c := counts st in
    let c :=
      if decide (Nucleon.id (HIInfo.nucleon hi n) = 2212) then
        mkCounts (nProtonProj c) (nNeutronProj c) (nProtonTarg c + 1) (nNeutronTarg c)
      else if decide (Nucleon.id (HIInfo.nucleon hi n) = 2112) then
        mkCounts (nProtonProj c) (nNeutronProj c) (nProtonTarg c) (nNeutronTarg c + 1)
      else c in
    mkNpartState (projW st) (targW st ++ [n]) c
  else st.

(** [getNpart(info, nProtonProj, nNeutronProj, nProtonTarg, nNeutronTarg)] *)
Definition getNpart (info : Info.t) (out : Counts) : Counts :=
  let out := zeroCounts in
  match Info.hiInfo info with
  | None => out
  | Some hiinfo =>
      counts
        (fold_left (λ st sc, getNpart_targ hiinfo sc (getNpart_proj hiinfo sc st))
                   (HIInfo.subCollisions hiinfo)
                   (mkNpartState [] [] out))
  end.

(** State of the particle loop of [getNremn]. *)
Record NremnState : Type := mkNremnState {
  st_counts : Counts;
  st_nNucRem : Z
}.

(** Body of the particle loop of [getNremn]; C++ [/] and [%] on [int]
    truncate towards zero. *)
Definition getNremn_body (particle : Particle.t) (st : NremnState) : NremnState :=
  let pdg := Particle.id particle in
  (* nuclear remnants have pdg code = ±10LZZZAAA9 *)
  if decide (pdg < 1000000000) then st (* must be nucleus *)
  else if decide (Z.rem pdg 10 ≠ 9) then st (* first digit must be 9 *)
  else
    let nNucRem := st_nNucRem st + 1 in
    (* extract A, Z and L from pdg code *)
    let pdg := Z.quot pdg 10 in
    let A := Z.rem pdg 1000 in
    let pdg := Z.quot pdg 1000 in
    let Z_ := Z.rem pdg 1000 in
    let pdg := Z.quot pdg 1000 in
    let L := Z.rem pdg 10 in
    let c := st_counts st in
    let c :=
      if PrimFloat.ltb 0%float (Particle.pz particle) then
        mkCounts Z_ (A - Z_) (nProtonTarg c) (nNeutronTarg c)
      else c in
    let c :=
      if PrimFloat.ltb (Particle.pz particle) 0%float then
        mkCounts (nProtonProj c) (nNeutronProj c) Z_ (A - Z_)
      else c in
    mkNremnState c nNucRem.

(** [getNremn(event, nProtonProj, nNeutronProj, nProtonTarg, nNeutronTarg)].
    The second component tells whether the warning about more than two
    nuclear remnants is logged. *)
Definition getNremn (event : Event) (out : Counts) : result (Counts * bool) :=
  (* reset *)
  let out := zeroCounts in
  let nNucRem := 0 in
  (* particle loop *)
  let nparticles := Event_size event in
  st ← for_range 0 nparticles
         (λ ipa st,
            match Event_at event ipa with
            | Some particle => Ok (getNremn_body particle st)
            | None => OutOfRange
            end)
         (mkNremnState out nNucRem);
  Ok (st_counts st, bool_decide (st_nNucRem st > 2)).

(** ** Free spectators *)

#[local] Set Warnings "-inexact-float".

(** ROOT and the platform, as used by [getNfreeSpec]: the conversions of a
    [double] to [float] and of a [float] to [int], the generator behind
    [gRandom], [TF1::Eval], and the four functions of the fragmentation
    model [o2::zdc::FragmentParam]. *)
Class RootLib : Type := {
  to_float : float → float;
  to_int : float → Z;
  TRandom : Type;
  Gaus : TRandom → float → float → float * TRandom;
  TF1 : Type;
  Eval : TF1 → float → float;
  getfNeutrons : TF1;
  getsigmaNeutrons : TF1;
  getfProtons : TF1;
  getsigmaProtons : TF1
}.

Section FreeSpec.

Context `{RootLib}.

(** One iteration of the neutron loop; [nneu] is the array [int nneu[2]]. *)
Definition freeNeutrons (b : float) (i : nat) (st : list Z * TRandom)
  : list Z * TRandom :=
  let '(nneu, gRandom) := st in
  let fneutrons := getfNeutrons in
  let fsigman := getsigmaNeutrons in
  let nave := to_float (Eval fneutrons b) in
  let sigman := to_float (Eval fsigman b) in
  let '(g, gRandom) := Gaus gRandom nave (0.68 * sigman * nave)%float in
  let nfree := to_float g in
  let nneu := <[i := to_int nfree]> nneu in
  let nneu :=
    if PrimFloat.ltb nave 0%float || bool_decide (nneu !!! i < 0)
    then <[i := 0]> nneu else nneu in
  let nneu := if decide (nneu !!! i > 126) then <[i := 126]> nneu else nneu in
  (nneu, gRandom).

(** One iteration of the proton loop; [sigmap] is read from [fsigman], as
    in the source. *)
Definition freeProtons (b : float) (i : nat) (st : list Z * TRandom)
  : list Z * TRandom :=
  let '(npro, gRandom) := st in
  let fprotons := getfProtons in
  let fsigman := getsigmaNeutrons in
  let pave := to_float (Eval fprotons b) in
  let sigmap := to_float (Eval fsigman b) in
  let '(g, gRandom) := Gaus gRandom pave (0.68 * sigmap * pave)%float in
  let pfree := to_float (g / 0.7)%float in
  let npro := <[i := to_int pfree]> npro in
  let npro :=
    if PrimFloat.ltb pave 0%float || bool_decide (npro !!! i < 0)
    then <[i := 0]> npro else npro in
  let npro := if decide (npro !!! i > 82) then <[i := 82]> npro else npro in
  (npro, gRandom).

(** The four output references of [getNfreeSpec], in the order of its
    signature. *)
Record FreeSpec : Type := mkFreeSpec {
  nFreenProj : Z;
  nFreepProj : Z;
  nFreenTarg : Z;
  nFreepTarg : Z
}.

(** [getNfreeSpec(info, nFreenProj, nFreepProj, nFreenTarg, nFreepTarg)] *)
Definition getNfreeSpec (info : Info.t) (out : FreeSpec) (gRandom : TRandom)
  : FreeSpec * TRandom :=
  match Info.hiInfo info with
  | None => (out, gRandom)
  | Some hiinfo =>
      let b := HIInfo.b hiinfo in
      (* Calculating no. of free spectators from parametrization *)
      let '(nneu, gRandom) := fold_left (λ st i, freeNeutrons b i st) [0; 1]%nat ([0; 0], gRandom) in
      let '(npro, gRandom) := fold_left (λ st i, freeProtons b i st) [0; 1]%nat ([0; 0], gRandom) in
      (mkFreeSpec (nneu !!! 0%nat) (npro !!! 0%nat) (nneu !!! 1%nat) (npro !!! 1%nat),
       gRandom)
  end.

End FreeSpec.

(** ** Vocabulary of the specification *)

Section Lineage.

Context `{PythiaLib}.

(** [daughter_of ev i j]: entry [j] is in the daughter list of entry [i]. *)
Definition daughter_of (ev : Event) (i j : Z) : Prop :=
  ∃ p, Event_at ev i = Some p ∧ j ∈ daughterList ev p.

(** The lineage graph is acyclic: no entry is its own descendant. *)
Definition acyclic (ev : Event) : Prop :=
  ∀ x, ¬ tc (daughter_of ev) x x.

(** Every daughter index designates an entry of the record. *)
Definition links_closed (ev : Event) : Prop :=
  ∀ i j, daughter_of ev i j → is_Some (Event_at ev j).

(** The ancestor and its transitive daughters. *)
Definition descendant (ev : Event) (ancestor x : Z) : Prop :=
  rtc (daughter_of ev) ancestor x.

End Lineage.

(** The indices of a record. *)
Definition Event_indices (ev : Event) : gset Z :=
  list_to_set (seqZ 0 (Event_size ev)).

(** The position given to index [k] in an output event of size [base] when
    [selected] is appended to it, and [0] for an index that is not selected:
    the value of [indexMap[k]] in the second loop. *)
Definition out_index (selected : gset Z) (base : Z) (k : Z) : Z :=
  default 0 ((assign_indices (set_iter selected) base).1 !! k).

(** A particle with its four links translated by [f]. *)
Definition remap (f : Z → Z) (p : Particle.t) : Particle.t :=
  Particle.daughters (f (Particle.daughter1 p)) (f (Particle.daughter2 p))
    (Particle.mothers (f (Particle.mother1 p)) (f (Particle.mother2 p)) p).

(** The entries of [ev] at the indices [sel], up to the first index that
    designates no entry. *)
Fixpoint read_prefix (ev : Event) (sel : list Z) : list Particle.t :=
  match sel with
  | [] => []
  | i :: sel =>
      match Event_at ev i with
      | Some p => p :: read_prefix ev sel
      | None => []
      end
  end.

(** A binary collision: both nucleons of the sub-collision are absorbed. *)
Definition both_absorbed (hi : HIInfo.t) (sc : SubCollision.t) : Prop :=
  Nucleon.status (HIInfo.nucleon hi (SubCollision.proj sc)) = Nucleon.ABS
  ∧ Nucleon.status (HIInfo.nucleon hi (SubCollision.targ sc)) = Nucleon.ABS.

#[global] Instance both_absorbed_dec hi sc : Decision (both_absorbed hi sc).
Proof. unfold both_absorbed. apply _. Defined.

(** A participant of species [code]: a nucleon whose status is absorbed or
    diffractive and whose identifier is [code]. *)
Definition participant (hi : HIInfo.t) (code : Z) (n : NucleonPtr) : Prop :=
  (Nucleon.status (HIInfo.nucleon hi n) = Nucleon.ABS
   ∨ Nucleon.status (HIInfo.nucleon hi n) = Nucleon.DIFF)
  ∧ Nucleon.id (HIInfo.nucleon hi n) = code.

#[global] Instance participant_dec hi code n : Decision (participant hi code n).
Proof. unfold participant. apply _. Defined.

(** The distinct participants of species [code] among the nucleons [ns]. *)
Definition participants (hi : HIInfo.t) (code : Z) (ns : list NucleonPtr)
  : gset NucleonPtr :=
  list_to_set (filter (participant hi code) ns).

(** A nuclear remnant: a code of at least ten digits that ends in 9. *)
Definition is_remnant (p : Particle.t) : Prop :=
  1000000000 ≤ Particle.id p ∧ Z.rem (Particle.id p) 10 = 9.

#[global] Instance is_remnant_dec p : Decision (is_remnant p).
Proof. unfold is_remnant. apply _. Defined.

(** The code [10LZZZAAA9] of a remnant of mass number [A], charge [Zc] and
    flag [L]. *)
Definition remnant_code (A Zc L : Z) : Z :=
  1000000000 + L * 10000000 + Zc * 10000 + A * 10 + 9.

(** The digits [AAA], [ZZZ] and [L] of a code. *)
Definition remnant_A (pdg : Z) : Z := Z.rem (Z.quot pdg 10) 1000.
Definition remnant_Z (pdg : Z) : Z := Z.rem (Z.quot pdg 10000) 1000.
Definition remnant_L (pdg : Z) : Z := Z.rem (Z.quot pdg 10000000) 10.

(** The side of a remnant, from the sign of its longitudinal momentum. *)
Definition proj_side (p : Particle.t) : Prop :=
  PrimFloat.ltb 0%float (Particle.pz p) = true.
Definition targ_side (p : Particle.t) : Prop :=
  PrimFloat.ltb (Particle.pz p) 0%float = true.

(** The state in which the particle loop of [getNremn] leaves an event. *)
Definition getNremn_loop (event : Event) : NremnState :=
  fold_left (λ st p, getNremn_body p st) event (mkNremnState zeroCounts 0).

(** The state in which the sub-collision loop of [getNpart] leaves a list
    of sub-collisions. *)
Definition getNpart_loop (hi : HIInfo.t) (scs : list SubCollision.t) : NpartState :=
  fold_left (λ st sc, getNpart_targ hi sc (getNpart_proj hi sc st)) scs
            (mkNpartState [] [] zeroCounts).

(** The invariant of the sub-collision loop: [projW] and [targW] hold, once
    each, the wounded nucleons met so far on their side, and each counter is
    the number of nucleons of its species in its vector. *)
Record NpartInv (hi : HIInfo.t) (ps ts : list NucleonPtr) (st : NpartState)
  : Prop := mkNpartInv {
  inv_projW_NoDup : NoDup (projW st);
  inv_targW_NoDup : NoDup (targW st);
  inv_projW_elem : ∀ n, n ∈ projW st ↔ n ∈ ps ∧ wounded hi n = true;
  inv_targW_elem : ∀ n, n ∈ targW st ↔ n ∈ ts ∧ wounded hi n = true;
  inv_pp : nProtonProj (counts st)
           = Z.of_nat (length (filter (λ n, Nucleon.id (HIInfo.nucleon hi n) = 2212) (projW st)));
  inv_np : nNeutronProj (counts st)
           = Z.of_nat (length (filter (λ n, Nucleon.id (HIInfo.nucleon hi n) = 2112) (projW st)));
  inv_pt : nProtonTarg (counts st)
           = Z.of_nat (length (filter (λ n, Nucleon.id (HIInfo.nucleon hi n) = 2212) (targW st)));
  inv_nt : nNeutronTarg (counts st)
           = Z.of_nat (length (filter (λ n, Nucleon.id (HIInfo.nucleon hi n) = 2112) (targW st)))
}.

(** ** Implementations of the library interfaces used to run the model *)

(** The daughters designated by [daughter1] and [daughter2] under Pythia's
    conventions: none, one, a range, or two separate entries. *)
Definition rangeDaughters (ev : Event) (p : Particle.t) : list Z :=
  let d1 := Particle.daughter1 p in
  let d2 := Particle.daughter2 p in
  if decide (d1 = 0 ∧ d2 = 0) then []
  else if decide (d2 = 0 ∨ d2 = d1) then [d1]
  else if decide (d2 > d1) then seqZ d1 (d2 - d1 + 1)
  else [d2; d1].

(** Final-state particles have a positive status code. *)
Definition finalHepMC (p : Particle.t) : Z :=
  if decide (Particle.status p > 0) then 1 else 2.

(** A Pythia 8.3 whose event generation succeeds. *)
Definition pythia83 : PythiaLib := {|
  PYTHIA_VERSION_INTEGER := 8309;
  next := λ py, (true, py);
  moreDecays := λ py, (true, py);
  daughterList := rangeDaughters;
  statusHepMC := finalHepMC
|}.

(** A Pythia 8.2 that produces the next event and then fails to decay it. *)
Definition pythia82 : PythiaLib := {|
  PYTHIA_VERSION_INTEGER := 8243;
  next := λ py, (true, py);
  moreDecays := λ py, (false, py);
  daughterList := rangeDaughters;
  statusHepMC := finalHepMC
|}.

(** A particle with the given code, status and links, at rest at the origin. *)
Definition particle (id status m1 m2 d1 d2 : Z) : Particle.t :=
  Particle.mk id status m1 m2 d1 d2
    0%float 0%float 0%float 0%float 0%float 0%float 0%float 0%float.

(** A particle with the given code and longitudinal momentum. *)
Definition remnant (id : Z) (pz : float) : Particle.t :=
  Particle.mk id 1 0 0 0 0
    0%float 0%float pz 0%float 0%float 0%float 0%float 0%float.

Definition emptyPythia : Pythia.t := Pythia.mk [] (Info.mk None) 0.

(** A decay chain below the system entry: entry 1 decays into 2 and 3, which
    both have entry 4 as daughter; entry 5 is unrelated. *)
Definition decayEvent : Event :=
  [particle 90 (-11) 0 0 0 0;
   particle 443 (-22) 0 0 2 3;
   particle 13 (-23) 1 0 4 0;
   particle (-13) (-23) 1 0 4 0;
   particle 22 1 2 3 0 0;
   particle 211 1 0 0 0 0].

Definition decayPythia : Pythia.t := Pythia.mk decayEvent (Info.mk None) 0.

(** A generator whose own event record holds the entries 0 to 2 of
    [decayEvent] only. *)
Definition shortPythia : Pythia.t := Pythia.mk (take 3 decayEvent) (Info.mk None) 0.

(** An output event that already holds three entries. *)
Definition threeEntries : Event :=
  [particle 90 (-11) 0 0 0 0; particle 2212 (-12) 0 0 0 0; particle 2212 (-12) 0 0 0 0].

(** An input event with a pion that has no daughters, and a generator whose
    own event holds a photon at the same index. *)
Definition pionEvent : Event :=
  [particle 90 (-11) 0 0 0 0; particle 211 1 0 0 0 0].

Definition photonPythia : Pythia.t :=
  Pythia.mk [particle 90 (-11) 0 0 0 0; particle 22 1 0 0 0 0] (Info.mk None) 0.

(** Truncation of a binary64 value towards zero; values that are not finite
    yield the most negative [int]. *)
Definition truncate (x : float) : Z :=
  match Prim2SF x with
  | S754_zero _ => 0
  | S754_finite s m e =>
      let v := if decide (0 ≤ e) then Z.pos m * 2 ^ e
               else Z.quot (Z.pos m) (2 ^ (- e)) in
      if s then - v else v
  | _ => -2147483648
  end.

(** A ROOT whose [TF1]s are linear in the impact parameter and whose
    generator state is a counter added to the mean. *)
Definition linearRoot : RootLib := {|
  to_float := λ x, x;
  to_int := truncate;
  TRandom := Z;
  Gaus := λ g mean sigma, ((mean + sigma * 3)%float, g + 1);
  TF1 := float * float;
  Eval := λ f x, (f.1 + f.2 * x)%float;
  getfNeutrons := (50%float, (-3)%float);
  getsigmaNeutrons := (0.125%float, 0%float);
  getfProtons := (30%float, (-2)%float);
  getsigmaProtons := (0.125%float, 0%float)
|}.

(** A ROOT like [linearRoot] whose draws fall a thousand below the mean and
    a thousand above it in turn. *)
Definition wideRoot : RootLib := {|
  to_float := λ x, x;
  to_int := truncate;
  TRandom := Z;
  Gaus := λ g mean sigma,
    ((if Z.even g then mean - 1000 else mean + 1000)%float, g + 1);
  TF1 := float * float;
  Eval := λ f x, (f.1 + f.2 * x)%float;
  getfNeutrons := (50%float, (-3)%float);
  getsigmaNeutrons := (0.125%float, 0%float);
  getfProtons := (30%float, (-2)%float);
  getsigmaProtons := (0.125%float, 0%float)
|}.

(** Two protons and a neutron on the projectile side, a proton and a neutron
    on the target side; nucleon 1 is absorbed, nucleon 2 unwounded, the
    others diffractive or absorbed. *)
Definition nucleons (n : NucleonPtr) : Nucleon.t :=
  if decide (n = 1) then Nucleon.mk 2212 Nucleon.ABS
  else if decide (n = 2) then Nucleon.mk 2212 Nucleon.UNWOUNDED
  else if decide (n = 3) then Nucleon.mk 2112 Nucleon.DIFF
  else if decide (n = 11) then Nucleon.mk 2212 Nucleon.ABS
  else Nucleon.mk 2112 Nucleon.ABS.

Definition heavyIon (scs : list SubCollision.t) : Info.t :=
  Info.mk (Some (HIInfo.mk 0%float scs nucleons)).

(** ** Further operations of the generator *)

(** [getNpart(info, nPart)]: the sum of the four counters.  The four locals
    are not initialised before the call that fills them; [locals] is what
    they hold. *)
Definition getNpart_nPart (info : Info.t) (locals : Counts) (nPart : Z) : Z :=
  let c := getNpart info locals in
  nProtonProj c + nNeutronProj c + nProtonTarg c + nNeutronTarg c.

(** *** Initialisation *)

(** The state of a [std::stringstream] that is only read: the characters
    left, or [None] once the end of the stream has been hit. *)
Definition stream : Type := option string.

(** The characters up to the delimiter, which is extracted and dropped, or
    up to the end of the stream. *)
Fixpoint read_until (delim : Ascii.ascii) (s : string) : string * stream :=
  match s with
  | EmptyString => (EmptyString, None)
  | String c s' =>
      if Ascii.eqb c delim then (EmptyString, Some s')
      else let '(token, rest) := read_until delim s' in (String c token, rest)
  end.

(** [getline(ss, config, delim)], the stream being tested as a condition:
    it fails when no character at all can be extracted. *)
Definition getline (ss : stream) (delim : Ascii.ascii) : option (string * stream) :=
  match ss with
  | None => None
  | Some EmptyString => None
  | Some s => Some (read_until delim s)
  end.

(** What [Init] asks of the outside world, in the order of the calls.
    Messages logged at level [info] are left out. *)
Inductive InitCall : Type :=
| BaseInit
| ReadFile (file : string)
| GetFromMacro (file func : string)
| SetUserHooks
| ReadString (line : string)
| PythiaInit
| LogFatal (message : string).

(** The entry points used by [Init]: [gSystem->ExpandPathName],
    [Pythia::readFile], [Pythia::readString], [Pythia::init], the macro
    loader [o2::conf::GetFromMacro] (a null pointer is [None]),
    [setUserHooks], and the logger.  [LOG(fatal)] writes its message and
    hands over to the logger, which is not among the sources:
    [fatal_returns] tells whether the logger gives control back to the
    statement that follows, or stops the process there. *)
Class InitLib : Type := {
  UserHooks : Type;
  ExpandPathName : string → string;
  readFile : Pythia.t → string → bool → bool * Pythia.t;
  readString : Pythia.t → string → bool * Pythia.t;
  init : Pythia.t → bool * Pythia.t;
  GetFromMacro_hooks : string → string → option UserHooks;
  setUserHooks : UserHooks → Pythia.t → Pythia.t;
  fatal_returns : bool
}.

(** The members of the generator that [Init] reads and writes, and the
    calls made so far. *)
Record Generator : Type := mkGenerator {
  mPythia : Pythia.t;
  mConfig : string;
  mHooksFileName : string;
  mHooksFuncName : string;
  calls : list InitCall
}.

Definition called (c : InitCall) (g : Generator) : Generator :=
  mkGenerator (mPythia g) (mConfig g) (mHooksFileName g) (mHooksFuncName g)
              (calls g ++ [c]).

Definition with_pythia (py : Pythia.t) (g : Generator) : Generator :=
  mkGenerator py (mConfig g) (mHooksFileName g) (mHooksFuncName g) (calls g).

Section Init.

Context `{PythiaLib} `{InitLib}.

(** The end of a call that has logged a fatal message: the [return false]
    that follows is reached when the logger gives control back. *)
Definition after_fatal : result bool :=
  if fatal_returns then Ok false else Halted.

(** [LOG(fatal) << message; return false;] *)
Definition fatal_return_false (message : string) (g : Generator)
  : Generator * result bool :=
  (called (LogFatal message) g, after_fatal).

(** [while (getline(ss, config, ' ')) { ... }]: [Ok true] when the stream
    is exhausted, and the end of [Init] when the body has logged its fatal
    message. *)
Fixpoint read_configuration (fuel : nat) (ss : stream) (g : Generator)
  : Generator * result bool :=
  match fuel with
  | O => (g, OutOfFuel)
  | S fuel =>
      match getline ss " "%char with
      | None => (g, Ok true)
      | Some (config, ss) =>
          let config := ExpandPathName config in
          let '(ok, py) := readFile (mPythia g) config true in
          let g := with_pythia py (called (ReadFile config) g) in
          if negb ok then
            fatal_return_false
              ("Failed to init 'Pythia8': problems with configuration file " ++ config) g
          else read_configuration fuel ss g
      end
  end.

(** [GeneratorPythia8::Init()]: the generator as the call leaves it, and
    the way the call ends.  The stream holds [mConfig], so that the loop
    runs at most once per character and once more. *)
Definition Init_run (g : Generator) : Generator * result bool :=
  (* init base class *)
  let g := called BaseInit g in
  (* read configuration *)
  let '(g, r) :=
    if decide (mConfig g = "") then (g, Ok true)
    else read_configuration (S (String.length (mConfig g))) (Some (mConfig g)) g in
  match r with
  | Ok true =>
      (* user hooks via configuration macro *)
      let '(g, r) :=
        if decide (mHooksFileName g = "") then (g, Ok true)
        else
          let g := called (GetFromMacro (mHooksFileName g) (mHooksFuncName g)) g in
          match GetFromMacro_hooks (mHooksFileName g) (mHooksFuncName g) with
          | None =>
              fatal_return_false
                "Failed to init 'Pythia8': problem with user hooks configuration " g
          | Some hooks =>
              (with_pythia (setUserHooks hooks (mPythia g)) (called SetUserHooks g),
               Ok true)
          end in
      match r with
      | Ok true =>
          (* inhibit hadron decays *)
          let g :=
            if decide (PYTHIA_VERSION_INTEGER < 8300) then
              let '(_, py) := readString (mPythia g) "HadronLevel:Decay off" in
              with_pythia py (called (ReadString "HadronLevel:Decay off") g)
            else g in
          (* initialise *)
          let '(ok, py) := init (mPythia g) in
          let g := with_pythia py (called PythiaInit g) in
          if negb ok then
            fatal_return_false "Failed to init 'Pythia8': init returned with error" g
          else (g, Ok true)
      | _ => (g, r)
      end
  | _ => (g, r)
  end.

(** The call as seen by a caller to which it returns: the value returned
    and the generator after the call. *)
Definition Init (g : Generator) : result (bool * Generator) :=
  let '(g, r) := Init_run g in
  b ← r; Ok (b, g).

End Init.

(** The configuration files named by [mConfig], in the order in which
    [Init] reads them: the pieces between single spaces, a final space
    closing the last piece. *)
Fixpoint config_files (piece : string) (s : string) : list string :=
  match s with
  | EmptyString => if decide (piece = "") then [] else [piece]
  | String c s' =>
      if Ascii.eqb c " "%char then piece :: config_files "" s'
      else config_files (piece ++ String c "") s'
  end.

(** *** The event header *)

(** A value attached to the header under a name: [putInfo<std::string>],
    [putInfo<int>] or [putInfo<double>]. *)
Inductive InfoValue : Type :=
| InfoString (s : string)
| InfoInt (z : Z)
| InfoDouble (d : float).

(** Modelled from the spec: [o2::dataformats::MCEventHeader] belongs to
    another part of O2; the specification describes it as a header-metadata
    map of string-keyed key/value annotations, next to which the header
    keeps the impact parameter set by [SetB]. *)
Record MCEventHeader : Type := mkMCEventHeader {
  fB : float;
  mEventInfo : gmap string InfoValue
}.

Definition putInfo (key : string) (v : InfoValue) (h : MCEventHeader) : MCEventHeader :=
  mkMCEventHeader (fB h) (<[key := v]> (mEventInfo h)).

Definition SetB (b : float) (h : MCEventHeader) : MCEventHeader :=
  mkMCEventHeader b (mEventInfo h).

(** [mPythia.info.name()] and [mPythia.info.code()]. *)
Class ProcessInfo : Type := {
  info_name : Info.t → string;
  info_code : Info.t → Z
}.

(** What the locals of [updateHeader], and those of [getNpart(info, nPart)]
    that it calls, hold before they are assigned. *)
Record HeaderLocals : Type := mkHeaderLocals {
  local_nColl : Z;
  local_nPart : Z;
  local_getNpart : Counts;
  local_nPartSpecies : Counts;
  local_nRemn : Counts;
  local_nFree : FreeSpec
}.

Section UpdateHeader.

Context `{PythiaLib} `{RootLib} `{ProcessInfo}.

(** [GeneratorPythia8::updateHeader(eventHeader)].

    Modelled from the spec: the overloads [getNcoll(nColl)],
    [getNpart(...)], [getNremn(...)] and [getNfreeSpec(...)] that take no
    [info] or [event] are declared in the class header, which is not among
    the sources; following the specification they are the counters above
    applied to the generator's own [mPythia.info] and [mPythia.event]. *)
Definition updateHeader (mPythia : Pythia.t) (locals : HeaderLocals)
    (gRandom : TRandom) (eventHeader : MCEventHeader)
  : result (MCEventHeader * TRandom) :=
  let info := Pythia.info mPythia in
  let eventHeader := putInfo "generator" (InfoString "pythia8") eventHeader in
  let eventHeader := putInfo "version" (InfoInt PYTHIA_VERSION_INTEGER) eventHeader in
  let eventHeader := putInfo "processName" (InfoString (info_name info)) eventHeader in
  let eventHeader := putInfo "processCode" (InfoInt (info_code info)) eventHeader in
  match Info.hiInfo info with
  | None => Ok (eventHeader, gRandom)
  | Some hiinfo =>
      (* set impact parameter *)
      let eventHeader := SetB (HIInfo.b hiinfo) eventHeader in
      let eventHeader := putInfo "Bimpact" (InfoDouble (HIInfo.b hiinfo)) eventHeader in
      (* set Ncoll, Npart and Nremn *)
      let nColl := getNcoll info (local_nColl locals) in
      let nPart := getNpart_nPart info (local_getNpart locals) (local_nPart locals) in
      let nPartSpecies := getNpart info (local_nPartSpecies locals) in
      '(nRemn, _) ← getNremn (Pythia.event mPythia) (local_nRemn locals);
      let '(nFree, gRandom) := getNfreeSpec info (local_nFree locals) gRandom in
      let eventHeader := putInfo "Ncoll" (InfoInt nColl) eventHeader in
      let eventHeader := putInfo "Npart" (InfoInt nPart) eventHeader in
      let eventHeader := putInfo "Npart_proj_p" (InfoInt (nProtonProj nPartSpecies)) eventHeader in
      let eventHeader := putInfo "Npart_proj_n" (InfoInt (nNeutronProj nPartSpecies)) eventHeader in
      let eventHeader := putInfo "Npart_targ_p" (InfoInt (nProtonTarg nPartSpecies)) eventHeader in
      let eventHeader := putInfo "Npart_targ_n" (InfoInt (nNeutronTarg nPartSpecies)) eventHeader in
      let eventHeader := putInfo "Nremn_proj_p" (InfoInt (nProtonProj nRemn)) eventHeader in
      let eventHeader := putInfo "Nremn_proj_n" (InfoInt (nNeutronProj nRemn)) eventHeader in
      let eventHeader := putInfo "Nremn_targ_p" (InfoInt (nProtonTarg nRemn)) eventHeader in
      let eventHeader := putInfo "Nremn_targ_n" (InfoInt (nNeutronTarg nRemn)) eventHeader in
      let eventHeader := putInfo "Nfree_proj_n" (InfoInt (nFreenProj nFree)) eventHeader in
      let eventHeader := putInfo "Nfree_proj_p" (InfoInt (nFreepProj nFree)) eventHeader in
      let eventHeader := putInfo "Nfree_targ_n" (InfoInt (nFreenTarg nFree)) eventHeader in
      let eventHeader := putInfo "Nfree_targ_p" (InfoInt (nFreepTarg nFree)) eventHeader in
      Ok (eventHeader, gRandom)
  end.

End UpdateHeader.

(** The names under which [updateHeader] writes when the run is a heavy-ion
    one, besides the four it always writes. *)
Definition heavy_ion_keys : list string :=
  ["Bimpact"; "Ncoll"; "Npart";
   "Npart_proj_p"; "Npart_proj_n"; "Npart_targ_p"; "Npart_targ_n";
   "Nremn_proj_p"; "Nremn_proj_n"; "Nremn_targ_p"; "Nremn_targ_n";
   "Nfree_proj_n"; "Nfree_proj_p"; "Nfree_targ_n"; "Nfree_targ_p"].

Definition general_keys : list string :=
  ["generator"; "version"; "processName"; "processCode"].

(** Data for the further properties: a lineage with the cycle 1, 2, 1. *)
Definition loopEvent : Event :=
  [particle 90 (-11) 0 0 0 0; particle 21 (-23) 0 0 2 0; particle 21 (-23) 1 0 1 0].



(** A generator whose event holds a particle produced away from the
    origin. *)
Definition displacedPythia : Pythia.t :=
  Pythia.mk
    [particle 90 (-11) 0 0 0 0;
     Particle.mk 310 1 0 0 0 0 0%float 0%float 5%float 5%float
                 1%float 2%float 30%float 4%float]
    (Info.mk None) 0.

(** A remnant that [getNremn] attributes to a side. *)
Definition sided_remnant (p : Particle.t) : Prop :=
  is_remnant p ∧ (proj_side p ∨ targ_side p).

#[global] Instance sided_remnant_dec p : Decision (sided_remnant p).
Proof. unfold sided_remnant, proj_side, targ_side. apply _. Defined.

(** A count of protons is a group of three digits and lies between 0 and
    999; a count of neutrons is the difference of two such groups and lies
    between -999 and 999. *)
Record counts_in_range (c : Counts) : Prop := mkCountsInRange {
  range_pp : 0 ≤ nProtonProj c ≤ 999;
  range_np : -999 ≤ nNeutronProj c ≤ 999;
  range_pt : 0 ≤ nProtonTarg c ≤ 999;
  range_nt : -999 ≤ nNeutronTarg c ≤ 999
}.

(** [x] brought into the interval from 0 to [hi]. *)
Definition clamp (hi x : Z) : Z := Z.min hi (Z.max 0 x).

(** A string without a space. *)
Fixpoint no_space (s : string) : Prop :=
  match s with
  | EmptyString => True
  | String c s' => c ≠ " "%char ∧ no_space s'
  end.

(** The body of the configuration loop of [Init], run over a list of file
    names. *)
Fixpoint read_files `{InitLib} (files : list string) (g : Generator)
  : Generator * result bool :=
  match files with
  | [] => (g, Ok true)
  | config :: files =>
      let config := ExpandPathName config in
      let '(ok, py) := readFile (mPythia g) config true in
      let g := with_pythia py (called (ReadFile config) g) in
      if negb ok then
        fatal_return_false
          ("Failed to init 'Pythia8': problems with configuration file " ++ config) g
      else read_files files g
  end.

(** The calls to [readFile] for a list of file names. *)
Definition reads `{InitLib} (files : list string) : list InitCall :=
  (λ f, ReadFile (ExpandPathName f)) <$> files.

(** The calls that load the user hooks, when a hooks file is named. *)
Definition hook_calls (g : Generator) : list InitCall :=
  if decide (mHooksFileName g = "") then []
  else [GetFromMacro (mHooksFileName g) (mHooksFuncName g); SetUserHooks].

(** The call that switches hadron decays off, for a Pythia older than 8.3. *)
Definition decay_calls `{PythiaLib} : list InitCall :=
  if decide (PYTHIA_VERSION_INTEGER < 8300) then [ReadString "HadronLevel:Decay off"]
  else [].

(** A library of which every entry point succeeds, whose [readFile] refuses
    the files of the given name, and whose logger stops the process at a
    fatal message. *)
Definition refusing (bad : string) : InitLib := {|
  UserHooks := unit;
  ExpandPathName := λ f, f;
  readFile := λ py f warn, (negb (String.eqb f bad), py);
  readString := λ py line, (true, py);
  init := λ py, (true, py);
  GetFromMacro_hooks := λ file func, Some tt;
  setUserHooks := λ hooks py, py;
  fatal_returns := false
|}.

(** A library whose [init] fails and whose logger gives control back. *)
Definition failing : InitLib := {|
  UserHooks := unit;
  ExpandPathName := λ f, f;
  readFile := λ py f warn, (true, py);
  readString := λ py line, (true, py);
  init := λ py, (false, py);
  GetFromMacro_hooks := λ file func, Some tt;
  setUserHooks := λ hooks py, py;
  fatal_returns := true
|}.

Definition configured (config hooks : string) : Generator :=
  mkGenerator emptyPythia config hooks "pythia8_user_hooks" [].

(** A process, locals that hold arbitrary values, and a header with an
    entry of its own. *)
Definition softQCD : ProcessInfo := {|
  info_name := λ _, "SoftQCD:inelastic"%string;
  info_code := λ _, 101
|}.

Definition staleLocals : HeaderLocals :=
  mkHeaderLocals (-7) 123456 (mkCounts 9 9 9 9) (mkCounts (-1) (-2) (-3) (-4))
                 (mkCounts 5 5 5 5) (mkFreeSpec 1000 (-1000) 2000 (-2000)).

Definition userHeader : MCEventHeader :=
  mkMCEventHeader 99%float {[ "user"%string := InfoInt 1 ]}.

Definition heavyIonPythia : Pythia.t :=
  Pythia.mk [remnant 1000822089 1%float]
            (heavyIon [SubCollision.mk 1 11; SubCollision.mk 1 12; SubCollision.mk 3 12]) 0.

(** * Properties *)

(** ** Loops over an event record *)

Lemma rbind_Ok_inv {A B : Type} (r : result A) (k : A → result B) (b : B) :
  rbind r k = Ok b → ∃ a, r = Ok a ∧ k a = Ok b.
Proof. destruct r as [a| | |]; simpl; intros E; try discriminate. by exists a. Qed.

Lemma Event_at_app_middle (pre : Event) (p : Particle.t) (post : Event) :
  Event_at (pre ++ p :: post) (Z.of_nat (length pre)) = Some p.
Proof.
  unfold Event_at. rewrite decide_True by lia.
  rewrite Nat2Z.id. by apply list_lookup_middle.
Qed.

Lemma Event_at_Some (ev : Event) (i : Z) (p : Particle.t) :
  Event_at ev i = Some p ↔ 0 ≤ i ∧ ev !! Z.to_nat i = Some p.
Proof.
  unfold Event_at. destruct (decide (0 ≤ i)) as [Hi|Hi].
  - split; [by intros ?|by intros [_ ?]].
  - split; [done|by intros [? _]].
Qed.

Lemma Event_at_is_Some (ev : Event) (i : Z) :
  is_Some (Event_at ev i) ↔ 0 ≤ i < Event_size ev.
Proof.
  unfold Event_at, Event_size. case_decide.
  - rewrite lookup_lt_is_Some. lia.
  - split; [intros [? ?]; done | lia].
Qed.

(** A counted loop that reads [event[i]] at each index of a segment of the
    record stays in range and folds its body over that segment. *)
Lemma for_loop_event {S : Type} (f : Particle.t → S → S) (l pre : Event) (s : S) :
  for_loop (length l) (Z.of_nat (length pre))
    (λ i s, match Event_at (pre ++ l) i with
            | Some p => Ok (f p s)
            | None => OutOfRange
            end) s
  = Ok (fold_left (λ s p, f p s) l s).
Proof.
  revert pre s. induction l as [|p l IH]; intros pre s; [done|].
  cbn [length for_loop fold_left].
  rewrite Event_at_app_middle. cbn.
  specialize (IH (pre ++ [p]) (f p s)).
  rewrite <- app_assoc, length_app in IH. cbn in IH.
  replace (Z.of_nat (length pre + 1)) with (Z.of_nat (length pre) + 1) in IH by lia.
  exact IH.
Qed.

Lemma fold_left_snoc_map {A B : Type} (g : A → B) (l : list A) (acc : list B) :
  fold_left (λ acc x, acc ++ [g x]) l acc = acc ++ (g <$> l).
Proof.
  revert acc. induction l as [|x l IH]; intros acc; cbn.
  - by rewrite app_nil_r.
  - rewrite IH, <- app_assoc. done.
Qed.

(** ** generateEvent *)

Lemma generateEvent_next_failed `{PythiaLib} (mPythia : Pythia.t) :
  (next mPythia).1 = false → (generateEvent mPythia).1 = false.
Proof.
  unfold generateEvent. destruct (next mPythia) as [ok py]; cbn.
  by intros ->.
Qed.

(** C7, as stated: [generateEvent] returns [false] exactly when [next()]
    reports that no event was produced, and [true] otherwise.  This fails
    for a Pythia older than 8.3: the event is produced, the forced decays
    fail, and [generateEvent] returns [false]. *)
Lemma generateEvent_true_otherwise_fails :
  ¬ (∀ (L : PythiaLib) (mPythia : Pythia.t),
       (generateEvent mPythia).1 = (next mPythia).1).
Proof.
  intros Hclaim. specialize (Hclaim pythia82 emptyPythia).
  vm_compute in Hclaim. discriminate.
Qed.

(** C7, amended: [generateEvent] never raises and returns [false] when
    [next()] fails; when [next()] succeeds it returns [true], unless the
    library is older than 8.3, in which case the production vertices are
    reset, [moreDecays()] is run, and its verdict is returned. *)
Theorem generateEvent_verdict `{PythiaLib} (mPythia : Pythia.t) :
  let produced := next mPythia in
  let reset :=
    Pythia.set_event (Particle.resetProd <$> Pythia.event produced.2) produced.2 in
  (generateEvent mPythia).1
  = produced.1
    && (if decide (PYTHIA_VERSION_INTEGER < 8300) then (moreDecays reset).1 else true).
Proof.
  unfold generateEvent. destruct (next mPythia) as [ok py]; cbn.
  destruct ok; cbn; [|done].
  case_decide; [|done].
  destruct (moreDecays _) as [ok2 py2]; cbn. by destruct ok2.
Qed.

(** ** importParticles *)

Lemma importParticles_spec `{PythiaLib} (enc : Z → Z → Z) (event : Event)
    (mParticles : list TParticle.t) :
  importParticles enc event mParticles
  = Ok (true, mParticles ++ (importParticle enc <$> drop 1 event)).
Proof.
  unfold importParticles, for_range, Event_size.
  destruct event as [|sys l].
  - cbn. by rewrite app_nil_r.
  - replace (Z.to_nat (Z.of_nat (length (sys :: l)) - 1)) with (length l)
      by (cbn [length]; lia).
    pose proof (for_loop_event (λ p acc, acc ++ [importParticle enc p]) l [sys] mParticles) as E.
    cbn [length app] in E. change (Z.of_nat 1) with 1 in E.
    rewrite E. cbn. by rewrite fold_left_snoc_map, drop_0.
Qed.

Lemma int_pred_above (x : Z) : INT_MIN < x → int_pred x = x - 1.
Proof. intros Hx. unfold int_pred. rewrite decide_False; [done|lia]. Qed.

(** C8: on an event of [n >= 1] entries, [importParticles] appends [n - 1]
    particles to the particle list, one per entry of index [k >= 1] and in
    that order (entry 0, the system, is skipped), and each of them carries
    the mother and daughter indices of its entry decremented by one.  The
    decrement is the one of [int]: it is stated for the links above
    [INT_MIN], the only ones on which [x - 1] is defined in C++. *)
Theorem importParticles_skips_system_shifts_links `{PythiaLib}
    (enc : Z → Z → Z) (event : Event) (mParticles : list TParticle.t) :
  1 ≤ Event_size event →
  ∃ new : list TParticle.t,
    importParticles enc event mParticles = Ok (true, mParticles ++ new)
    ∧ Z.of_nat (length new) = Event_size event - 1
    ∧ ∀ (k : Z) (p : Particle.t),
        1 ≤ k → Event_at event k = Some p →
        ∃ tp : TParticle.t,
          new !! Z.to_nat (k - 1) = Some tp
          ∧ TParticle.fPdgCode tp = Particle.id p
          ∧ (INT_MIN < Particle.mother1 p →
             TParticle.fMother1 tp = Particle.mother1 p - 1)
          ∧ (INT_MIN < Particle.mother2 p →
             TParticle.fMother2 tp = Particle.mother2 p - 1)
          ∧ (INT_MIN < Particle.daughter1 p →
             TParticle.fDaughter1 tp = Particle.daughter1 p - 1)
          ∧ (INT_MIN < Particle.daughter2 p →
             TParticle.fDaughter2 tp = Particle.daughter2 p - 1).
Proof.
  intros Hn. exists (importParticle enc <$> drop 1 event).
  split; [apply importParticles_spec|]. split.
  - unfold Event_size in *. rewrite length_fmap, length_drop. lia.
  - intros k p Hk Hp. apply Event_at_Some in Hp as [_ Hp].
    exists (importParticle enc p). split.
    + rewrite list_lookup_fmap, lookup_drop.
      replace (1 + Z.to_nat (k - 1))%nat with (Z.to_nat k) by lia.
      by rewrite Hp.
    + split; [done|]. repeat split; apply int_pred_above.
Qed.

Lemma importParticles_witness :
  ∃ new : list TParticle.t,
    importParticles (H := pythia83) (λ hepmc gen, hepmc)
      [particle 90 (-11) 0 0 0 0; particle 2212 (-12) 0 0 3 4;
       particle 211 1 1 0 0 0] [] = Ok (true, [] ++ new)
    ∧ Z.of_nat (length new) = 3 - 1
    ∧ ∀ (k : Z) (p : Particle.t),
        1 ≤ k →
        Event_at [particle 90 (-11) 0 0 0 0; particle 2212 (-12) 0 0 3 4;
                  particle 211 1 1 0 0 0] k = Some p →
        ∃ tp : TParticle.t,
          new !! Z.to_nat (k - 1) = Some tp
          ∧ TParticle.fPdgCode tp = Particle.id p
          ∧ (INT_MIN < Particle.mother1 p →
             TParticle.fMother1 tp = Particle.mother1 p - 1)
          ∧ (INT_MIN < Particle.mother2 p →
             TParticle.fMother2 tp = Particle.mother2 p - 1)
          ∧ (INT_MIN < Particle.daughter1 p →
             TParticle.fDaughter1 tp = Particle.daughter1 p - 1)
          ∧ (INT_MIN < Particle.daughter2 p →
             TParticle.fDaughter2 tp = Particle.daughter2 p - 1).
Proof.
  apply (importParticles_skips_system_shifts_links (H := pythia83)).
  vm_compute. discriminate.
Defined.

(** ** getNcoll *)

Lemma getNcoll_fold (hi : HIInfo.t) (scs : list SubCollision.t) (n : Z) :
  fold_left
    (λ nColl sc,
       if ABS_status hi (SubCollision.proj sc) && ABS_status hi (SubCollision.targ sc)
       then nColl + 1 else nColl) scs n
  = n + Z.of_nat (length (filter (both_absorbed hi) scs)).
Proof.
  revert n. induction scs as [|sc scs IH]; intros n; cbn [fold_left].
  - cbn. lia.
  - rewrite IH, filter_cons. unfold ABS_status, both_absorbed at 2.
    destruct (decide _) as [[Hp Ht]|Hn].
    + rewrite !bool_decide_eq_true_2 by done. cbn [andb length]. lia.
    + case_bool_decide; [case_bool_decide|]; cbn [andb]; [tauto|lia|lia].
Qed.

(** C5: [getNcoll] returns the number of sub-collisions whose projectile
    and target nucleons are both absorbed; on an empty sub-collision list
    it returns zero, and [getNpart] returns zero participants on both
    sides. *)
Theorem getNcoll_counts_absorbed_pairs (info : Info.t) (hi : HIInfo.t)
    (nColl : Z) (out : Counts) :
  Info.hiInfo info = Some hi →
  getNcoll info nColl
  = Z.of_nat (length (filter (both_absorbed hi) (HIInfo.subCollisions hi)))
  ∧ (HIInfo.subCollisions hi = [] →
     getNcoll info nColl = 0 ∧ getNpart info out = zeroCounts).
Proof.
  intros Hhi. unfold getNcoll, getNpart. rewrite Hhi. split.
  - rewrite getNcoll_fold. lia.
  - intros ->. done.
Qed.

Lemma getNcoll_witness :
  getNcoll (heavyIon [SubCollision.mk 1 11; SubCollision.mk 1 12;
                      SubCollision.mk 2 11; SubCollision.mk 3 12]) 7
  = Z.of_nat (length (filter (both_absorbed (HIInfo.mk 0%float
        [SubCollision.mk 1 11; SubCollision.mk 1 12;
         SubCollision.mk 2 11; SubCollision.mk 3 12] nucleons))
        [SubCollision.mk 1 11; SubCollision.mk 1 12;
         SubCollision.mk 2 11; SubCollision.mk 3 12]))
  ∧ ([SubCollision.mk 1 11; SubCollision.mk 1 12;
      SubCollision.mk 2 11; SubCollision.mk 3 12] = [] →
     getNcoll (heavyIon [SubCollision.mk 1 11; SubCollision.mk 1 12;
                         SubCollision.mk 2 11; SubCollision.mk 3 12]) 7 = 0
     ∧ getNpart (heavyIon [SubCollision.mk 1 11; SubCollision.mk 1 12;
                           SubCollision.mk 2 11; SubCollision.mk 3 12])
         (mkCounts 5 6 7 8) = zeroCounts).
Proof.
  apply (getNcoll_counts_absorbed_pairs
           (heavyIon [SubCollision.mk 1 11; SubCollision.mk 1 12;
                      SubCollision.mk 2 11; SubCollision.mk 3 12])
           (HIInfo.mk 0%float
              [SubCollision.mk 1 11; SubCollision.mk 1 12;
               SubCollision.mk 2 11; SubCollision.mk 3 12] nucleons)
           7 (mkCounts 5 6 7 8)).
  reflexivity.
Defined.

(** ** Absent heavy-ion information *)

(** C10: without heavy-ion information [getNfreeSpec] leaves its four
    outputs (and the random generator) as the caller passed them, whereas
    [getNcoll] and [getNpart] have set theirs to zero. *)
Theorem no_hiInfo_outputs `{RootLib} (info : Info.t) (spec : FreeSpec)
    (gRandom : TRandom) (nColl : Z) (npart : Counts) :
  Info.hiInfo info = None →
  getNfreeSpec info spec gRandom = (spec, gRandom)
  ∧ getNcoll info nColl = 0
  ∧ getNpart info npart = zeroCounts.
Proof.
  intros Hhi. unfold getNfreeSpec, getNcoll, getNpart. by rewrite Hhi.
Qed.

Lemma no_hiInfo_witness :
  getNfreeSpec (H := linearRoot) (Info.mk None) (mkFreeSpec 11 (-22) 333 4444) 5
  = (mkFreeSpec 11 (-22) 333 4444, 5)
  ∧ getNcoll (Info.mk None) 99 = 0
  ∧ getNpart (Info.mk None) (mkCounts 1 2 3 4) = zeroCounts.
Proof.
  apply (no_hiInfo_outputs (H := linearRoot) (Info.mk None)
           (mkFreeSpec 11 (-22) 333 4444) 5 99 (mkCounts 1 2 3 4)).
  reflexivity.
Defined.

(** ** getNfreeSpec *)

(** Storing a draw in slot [i] and applying the two clamps leaves a value
    between [0] and the maximum in that slot, and the other slots as they
    were. *)
Lemma clamp_slot (v : Z) (neg : bool) (hi : Z) (l : list Z) (i : nat) :
  0 ≤ hi → (i < length l)%nat →
  let l1 := <[i := v]> l in
  let l2 := if neg || bool_decide (l1 !!! i < 0) then <[i := 0]> l1 else l1 in
  let l3 := if decide (l2 !!! i > hi) then <[i := hi]> l2 else l2 in
  length l3 = length l
  ∧ 0 ≤ l3 !!! i ≤ hi
  ∧ ∀ j : nat, j ≠ i → l3 !!! j = l !!! j.
Proof.
  intros Hhi Hi l1 l2 l3.
  assert (Hl1 : length l1 = length l) by apply length_insert.
  assert (Hv1 : l1 !!! i = v) by (by apply list_lookup_total_insert_eq).
  assert (Ho1 : ∀ j : nat, j ≠ i → l1 !!! j = l !!! j)
    by (intros j Hj; by apply list_lookup_total_insert_ne).
  assert (Hl2 : length l2 = length l).
  { subst l2. destruct (_ || _); [rewrite length_insert|]; done. }
  assert (Hv2 : 0 ≤ l2 !!! i).
  { subst l2. destruct neg; cbn [orb].
    - rewrite list_lookup_total_insert_eq by lia. lia.
    - case_bool_decide; [rewrite list_lookup_total_insert_eq by lia|]; lia. }
  assert (Ho2 : ∀ j : nat, j ≠ i → l2 !!! j = l !!! j).
  { intros j Hj. subst l2.
    destruct (_ || _); [rewrite list_lookup_total_insert_ne by done|]; auto. }
  subst l3. destruct (decide (l2 !!! i > hi)) as [Hgt|Hle].
  - rewrite length_insert, list_lookup_total_insert_eq by lia.
    split; [done|]. split; [lia|].
    intros j Hj. rewrite list_lookup_total_insert_ne by done. auto.
  - split; [done|]. split; [lia|]. done.
Qed.

Lemma freeNeutrons_clamped `{RootLib} (b : float) (i : nat) (nneu : list Z)
    (g : TRandom) :
  (i < length nneu)%nat →
  let r := (freeNeutrons b i (nneu, g)).1 in
  length r = length nneu ∧ 0 ≤ r !!! i ≤ 126 ∧ ∀ j : nat, j ≠ i → r !!! j = nneu !!! j.
Proof.
  intros Hi. unfold freeNeutrons.
  destruct (Gaus _ _ _) as [x g']. cbn [fst].
  by apply clamp_slot.
Qed.

Lemma freeProtons_clamped `{RootLib} (b : float) (i : nat) (npro : list Z)
    (g : TRandom) :
  (i < length npro)%nat →
  let r := (freeProtons b i (npro, g)).1 in
  length r = length npro ∧ 0 ≤ r !!! i ≤ 82 ∧ ∀ j : nat, j ≠ i → r !!! j = npro !!! j.
Proof.
  intros Hi. unfold freeProtons.
  destruct (Gaus _ _ _) as [x g']. cbn [fst].
  by apply clamp_slot.
Qed.

(** The value left in a slot by the two tests of the loops of
    [getNfreeSpec]. *)
Lemma clamp_slot_value (v : Z) (neg : bool) (hi : Z) (l : list Z) (i : nat) :
  0 ≤ hi → (i < length l)%nat →
  let l1 := <[i := v]> l in
  let l2 := if neg || bool_decide (l1 !!! i < 0) then <[i := 0]> l1 else l1 in
  let l3 := if decide (l2 !!! i > hi) then <[i := hi]> l2 else l2 in
  l3 !!! i = if neg then 0 else clamp hi v.
Proof.
  intros Hhi Hi l1 l2 l3.
  assert (Hl1 : length l1 = length l) by apply length_insert.
  assert (Hv1 : l1 !!! i = v) by (by apply list_lookup_total_insert_eq).
  assert (Hv2 : l2 !!! i = if neg then 0 else Z.max 0 v).
  { subst l2. destruct neg; cbn [orb].
    - by rewrite list_lookup_total_insert_eq by lia.
    - case_bool_decide; [rewrite list_lookup_total_insert_eq by lia|]; lia. }
  assert (Hl2 : length l2 = length l).
  { subst l2. destruct (_ || _); [rewrite length_insert|]; done. }
  subst l3. unfold clamp. destruct (decide (l2 !!! i > hi)) as [Hgt|Hle].
  - rewrite list_lookup_total_insert_eq by lia. destruct neg; lia.
  - rewrite Hv2 in *. destruct neg; lia.
Qed.

Lemma clamp_range (hi x : Z) : 0 ≤ hi → 0 ≤ clamp hi x ≤ hi.
Proof. unfold clamp. lia. Qed.

(** One iteration of the neutron loop: the draw it makes, and the count it
    leaves in its slot. *)
Lemma freeNeutrons_slot `{RootLib} (b : float) (i : nat) (nneu : list Z)
    (g : TRandom) :
  (i < length nneu)%nat →
  let nave := to_float (Eval getfNeutrons b) in
  let sigman := to_float (Eval getsigmaNeutrons b) in
  let d := Gaus g nave (0.68 * sigman * nave)%float in
  let r := freeNeutrons b i (nneu, g) in
  r.2 = d.2
  ∧ r.1 !!! i = (if PrimFloat.ltb nave 0%float then 0
                 else clamp 126 (to_int (to_float d.1))).
Proof.
  intros Hi. cbv zeta. unfold freeNeutrons.
  destruct (Gaus _ _ _) as [x g']. cbn [fst snd].
  split; [done|]. by apply clamp_slot_value.
Qed.

(** One iteration of the proton loop. *)
Lemma freeProtons_slot `{RootLib} (b : float) (i : nat) (npro : list Z)
    (g : TRandom) :
  (i < length npro)%nat →
  let pave := to_float (Eval getfProtons b) in
  let sigmap := to_float (Eval getsigmaNeutrons b) in
  let d := Gaus g pave (0.68 * sigmap * pave)%float in
  let r := freeProtons b i (npro, g) in
  r.2 = d.2
  ∧ r.1 !!! i = (if PrimFloat.ltb pave 0%float then 0
                 else clamp 82 (to_int (to_float (d.1 / 0.7)%float))).
Proof.
  intros Hi. cbv zeta. unfold freeProtons.
  destruct (Gaus _ _ _) as [x g']. cbn [fst snd].
  split; [done|]. by apply clamp_slot_value.
Qed.

(** C6: whatever the impact parameter, the fragmentation functions, the
    Gaussian draws and the conversions to [float] and [int] return,
    [getNfreeSpec] has no error path and each of its four counts is the
    draw made for it, converted to [int] and clamped: 0 when the mean or the
    converted draw is negative, the maximum of the species when the
    converted draw exceeds it, and the converted draw otherwise.  Hence
    both neutron counts lie in [0, 126] and both proton counts in
    [0, 82]. *)
Theorem getNfreeSpec_clamped `{RootLib} (info : Info.t) (hi : HIInfo.t)
    (spec : FreeSpec) (gRandom : TRandom) :
  Info.hiInfo info = Some hi →
  let b := HIInfo.b hi in
  let nave := to_float (Eval getfNeutrons b) in
  let pave := to_float (Eval getfProtons b) in
  let sigma := to_float (Eval getsigmaNeutrons b) in
  let d1 := Gaus gRandom nave (0.68 * sigma * nave)%float in
  let d2 := Gaus d1.2 nave (0.68 * sigma * nave)%float in
  let d3 := Gaus d2.2 pave (0.68 * sigma * pave)%float in
  let d4 := Gaus d3.2 pave (0.68 * sigma * pave)%float in
  let clamped (mean : float) (max x : Z) : Z :=
    if PrimFloat.ltb mean 0%float then 0
    else if decide (x < 0) then 0
    else if decide (x > max) then max
    else x in
  let out := (getNfreeSpec info spec gRandom).1 in
  nFreenProj out = clamped nave 126 (to_int (to_float d1.1))
  ∧ nFreenTarg out = clamped nave 126 (to_int (to_float d2.1))
  ∧ nFreepProj out = clamped pave 82 (to_int (to_float (d3.1 / 0.7)%float))
  ∧ nFreepTarg out = clamped pave 82 (to_int (to_float (d4.1 / 0.7)%float))
  ∧ 0 ≤ nFreenProj out ≤ 126 ∧ 0 ≤ nFreenTarg out ≤ 126
  ∧ 0 ≤ nFreepProj out ≤ 82 ∧ 0 ≤ nFreepTarg out ≤ 82.
Proof.
  intros Hhi. cbv zeta. unfold getNfreeSpec. rewrite Hhi. cbn [fold_left].
  pose proof (freeNeutrons_clamped (HIInfo.b hi) 0 [0; 0] gRandom) as N0.
  pose proof (freeNeutrons_slot (HIInfo.b hi) 0 [0; 0] gRandom) as S0.
  destruct (freeNeutrons (HIInfo.b hi) 0 ([0; 0], gRandom)) as [n0 g0].
  cbn [fst snd length] in N0, S0.
  destruct N0 as (Ln0 & _ & _); [lia|]. destruct S0 as (Eg0 & Vn0); [lia|].
  pose proof (freeNeutrons_clamped (HIInfo.b hi) 1 n0 g0) as N1.
  pose proof (freeNeutrons_slot (HIInfo.b hi) 1 n0 g0) as S1.
  destruct (freeNeutrons (HIInfo.b hi) 1 (n0, g0)) as [n1 g1].
  cbn [fst snd] in N1, S1.
  destruct N1 as (Ln1 & _ & On1); [lia|]. destruct S1 as (Eg1 & Vn1); [lia|].
  pose proof (freeProtons_clamped (HIInfo.b hi) 0 [0; 0] g1) as P0.
  pose proof (freeProtons_slot (HIInfo.b hi) 0 [0; 0] g1) as T0.
  destruct (freeProtons (HIInfo.b hi) 0 ([0; 0], g1)) as [p0 g2].
  cbn [fst snd length] in P0, T0.
  destruct P0 as (Lp0 & _ & _); [lia|]. destruct T0 as (Eg2 & Vp0); [lia|].
  pose proof (freeProtons_clamped (HIInfo.b hi) 1 p0 g2) as P1.
  pose proof (freeProtons_slot (HIInfo.b hi) 1 p0 g2) as T1.
  destruct (freeProtons (HIInfo.b hi) 1 (p0, g2)) as [p1 g3].
  cbn [fst snd] in P1, T1.
  destruct P1 as (Lp1 & _ & Op1); [lia|]. destruct T1 as (Eg3 & Vp1); [lia|].
  cbn [fst nFreenProj nFreenTarg nFreepProj nFreepTarg].
  rewrite (On1 0%nat), (Op1 0%nat), Vn0, Vn1, Vp0, Vp1 by done.
  subst g3 g2 g1 g0. unfold clamp.
  repeat split;
    repeat match goal with |- context [PrimFloat.ltb ?x ?y] =>
             destruct (PrimFloat.ltb x y) end;
    repeat case_decide; lia.
Qed.

(** Draws of -950 and 1050 neutrons and of -1385 and 1471 protons: each of
    the two clamps is applied to a count of each species. *)
Lemma getNfreeSpec_witness :
  (getNfreeSpec (H := wideRoot) (heavyIon []) (mkFreeSpec (-1) (-1) 1000 1000) 0).1
  = mkFreeSpec 0 0 126 82
  ∧ [truncate (50 - 1000)%float; truncate (50 + 1000)%float;
     truncate ((30 - 1000) / 0.7)%float; truncate ((30 + 1000) / 0.7)%float]
    = [-950; 1050; -1385; 1471].
Proof.
  pose proof (getNfreeSpec_clamped (H := wideRoot) (heavyIon [])
                (HIInfo.mk 0%float [] nucleons) (mkFreeSpec (-1) (-1) 1000 1000) 0
                eq_refl) as W.
  cbv zeta in W. destruct W as (E1 & E2 & E3 & E4 & _).
  split; [|vm_compute; reflexivity].
  destruct (getNfreeSpec _ _ _).1 as [a b c d].
  cbn [nFreenProj nFreenTarg nFreepProj nFreepTarg] in *.
  rewrite E1, E2, E3, E4. vm_compute. reflexivity.
Defined.

(** ** getNremn *)

(** The particle loop stays within the record: [getNremn] completes on every
    event. *)
Lemma getNremn_fold (event : Event) (out : Counts) :
  getNremn event out
  = Ok (st_counts (getNremn_loop event),
        bool_decide (st_nNucRem (getNremn_loop event) > 2)).
Proof.
  unfold getNremn, for_range, Event_size.
  replace (Z.to_nat (Z.of_nat (length event) - 0)) with (length event) by lia.
  pose proof (for_loop_event getNremn_body event [] (mkNremnState zeroCounts 0)) as E.
  cbn [length app] in E. change (Z.of_nat 0) with 0 in E.
  by rewrite E.
Qed.

(** What the loop body does on a remnant. *)
Lemma getNremn_body_remnant (r : Particle.t) (st : NremnState) :
  is_remnant r →
  let c := st_counts (getNremn_body r st) in
  (proj_side r →
   nProtonProj c = remnant_Z (Particle.id r)
   ∧ nNeutronProj c = remnant_A (Particle.id r) - remnant_Z (Particle.id r))
  ∧ (targ_side r →
     nProtonTarg c = remnant_Z (Particle.id r)
     ∧ nNeutronTarg c = remnant_A (Particle.id r) - remnant_Z (Particle.id r)).
Proof.
  intros [Hbig Hnine]. unfold getNremn_body, remnant_A, remnant_Z, proj_side, targ_side.
  rewrite decide_False by lia. rewrite decide_False by (intros Hne; by apply Hne).
  rewrite (Z.quot_quot _ 10 1000) by lia. change (10 * 1000) with 10000.
  cbn [st_counts]. split; intros ->.
  - by destruct (PrimFloat.ltb (Particle.pz r) 0).
  - by destruct (PrimFloat.ltb 0 (Particle.pz r)).
Qed.

(** A particle that is not a projectile-side remnant leaves the
    projectile-side counts alone; likewise on the target side. *)
Lemma getNremn_body_keeps_proj (q : Particle.t) (st : NremnState) :
  ¬ (is_remnant q ∧ proj_side q) →
  nProtonProj (st_counts (getNremn_body q st)) = nProtonProj (st_counts st)
  ∧ nNeutronProj (st_counts (getNremn_body q st)) = nNeutronProj (st_counts st).
Proof.
  intros Hq. unfold getNremn_body.
  destruct (decide (Particle.id q < 1000000000)); [done|].
  destruct (decide (Z.rem (Particle.id q) 10 ≠ 9)) as [|Hnine]; [done|].
  assert (Hr : is_remnant q).
  { split; [lia|]. by destruct (decide (Z.rem (Particle.id q) 10 = 9)). }
  destruct (PrimFloat.ltb 0 (Particle.pz q)) eqn:Hpos.
  { exfalso. apply Hq. by split. }
  cbn [st_counts]. by destruct (PrimFloat.ltb (Particle.pz q) 0).
Qed.

Lemma getNremn_body_keeps_targ (q : Particle.t) (st : NremnState) :
  ¬ (is_remnant q ∧ targ_side q) →
  nProtonTarg (st_counts (getNremn_body q st)) = nProtonTarg (st_counts st)
  ∧ nNeutronTarg (st_counts (getNremn_body q st)) = nNeutronTarg (st_counts st).
Proof.
  intros Hq. unfold getNremn_body.
  destruct (decide (Particle.id q < 1000000000)); [done|].
  destruct (decide (Z.rem (Particle.id q) 10 ≠ 9)) as [|Hnine]; [done|].
  assert (Hr : is_remnant q).
  { split; [lia|]. by destruct (decide (Z.rem (Particle.id q) 10 = 9)). }
  destruct (PrimFloat.ltb (Particle.pz q) 0) eqn:Hneg.
  { exfalso. apply Hq. by split. }
  cbn [st_counts]. by destruct (PrimFloat.ltb 0 (Particle.pz q)).
Qed.

Lemma getNremn_fold_keeps_proj (l : Event) (st : NremnState) :
  Forall (λ q, ¬ (is_remnant q ∧ proj_side q)) l →
  let st' := fold_left (λ st p, getNremn_body p st) l st in
  nProtonProj (st_counts st') = nProtonProj (st_counts st)
  ∧ nNeutronProj (st_counts st') = nNeutronProj (st_counts st).
Proof.
  intros Hl. revert st. induction Hl as [|q l Hq _ IH]; intros st; [done|].
  cbn [fold_left]. destruct (IH (getNremn_body q st)) as [-> ->].
  by apply getNremn_body_keeps_proj.
Qed.

Lemma getNremn_fold_keeps_targ (l : Event) (st : NremnState) :
  Forall (λ q, ¬ (is_remnant q ∧ targ_side q)) l →
  let st' := fold_left (λ st p, getNremn_body p st) l st in
  nProtonTarg (st_counts st') = nProtonTarg (st_counts st)
  ∧ nNeutronTarg (st_counts st') = nNeutronTarg (st_counts st).
Proof.
  intros Hl. revert st. induction Hl as [|q l Hq _ IH]; intros st; [done|].
  cbn [fold_left]. destruct (IH (getNremn_body q st)) as [-> ->].
  by apply getNremn_body_keeps_targ.
Qed.

(** The counts of a side are those of the last remnant of that side. *)
Lemma getNremn_loop_last (e1 : Event) (r : Particle.t) (e2 : Event) :
  is_remnant r →
  let c := st_counts (getNremn_loop (e1 ++ r :: e2)) in
  (proj_side r → Forall (λ q, ¬ (is_remnant q ∧ proj_side q)) e2 →
   nProtonProj c = remnant_Z (Particle.id r)
   ∧ nNeutronProj c = remnant_A (Particle.id r) - remnant_Z (Particle.id r))
  ∧ (targ_side r → Forall (λ q, ¬ (is_remnant q ∧ targ_side q)) e2 →
     nProtonTarg c = remnant_Z (Particle.id r)
     ∧ nNeutronTarg c = remnant_A (Particle.id r) - remnant_Z (Particle.id r)).
Proof.
  intros Hr. unfold getNremn_loop. rewrite fold_left_app. cbn [fold_left].
  set (st := fold_left _ e1 _).
  destruct (getNremn_body_remnant r st Hr) as [Hp Ht].
  split; intros Hside Hlater.
  - destruct (getNremn_fold_keeps_proj e2 (getNremn_body r st) Hlater) as [-> ->].
    by apply Hp.
  - destruct (getNremn_fold_keeps_targ e2 (getNremn_body r st) Hlater) as [-> ->].
    by apply Ht.
Qed.

(** The digits of a well-formed remnant code. *)
Lemma remnant_code_digits (A Zc L : Z) :
  0 ≤ A < 1000 → 0 ≤ Zc < 1000 → 0 ≤ L < 10 →
  is_remnant (remnant (remnant_code A Zc L) 0%float)
  ∧ remnant_A (remnant_code A Zc L) = A
  ∧ remnant_Z (remnant_code A Zc L) = Zc
  ∧ remnant_L (remnant_code A Zc L) = L.
Proof.
  intros HA HZ HL. unfold is_remnant, remnant_A, remnant_Z, remnant_L, remnant_code.
  cbn [Particle.id remnant].
  assert (Q1 : Z.quot (1000000000 + L * 10000000 + Zc * 10000 + A * 10 + 9) 10
               = 100000000 + L * 1000000 + Zc * 1000 + A)
    by (symmetry; apply (Z.quot_unique _ _ _ 9); lia).
  assert (Q2 : Z.quot (1000000000 + L * 10000000 + Zc * 10000 + A * 10 + 9) 10000
               = 100000 + L * 1000 + Zc)
    by (symmetry; apply (Z.quot_unique _ _ _ (A * 10 + 9)); lia).
  assert (Q3 : Z.quot (1000000000 + L * 10000000 + Zc * 10000 + A * 10 + 9) 10000000
               = 100 + L)
    by (symmetry; apply (Z.quot_unique _ _ _ (Zc * 10000 + A * 10 + 9)); lia).
  rewrite Q1, Q2, Q3. repeat split.
  - lia.
  - symmetry. apply (Z.rem_unique _ _ (100000000 + L * 1000000 + Zc * 1000 + A)); lia.
  - symmetry. apply (Z.rem_unique _ _ (100000 + L * 1000 + Zc)); lia.
  - symmetry. apply (Z.rem_unique _ _ (100 + L * 1)); lia.
  - symmetry. apply (Z.rem_unique _ _ 10); lia.
Qed.

(** C4: [getNremn] decodes the code [10LZZZAAA9] of a remnant into its mass
    number [A], charge [Zc] and flag [L], and sets protons to [Zc] and
    neutrons to [A - Zc] on the projectile side when the longitudinal
    momentum of the remnant is positive, on the target side when it is
    negative (the remnant being the last of its side in the event). *)
Theorem getNremn_decodes_remnant (e1 e2 : Event) (r : Particle.t)
    (A Zc L : Z) (out : Counts) :
  0 ≤ A < 1000 → 0 ≤ Zc < 1000 → 0 ≤ L < 10 →
  Particle.id r = remnant_code A Zc L →
  ∃ (c : Counts) (w : bool),
    getNremn (e1 ++ r :: e2) out = Ok (c, w)
    ∧ remnant_A (Particle.id r) = A
    ∧ remnant_Z (Particle.id r) = Zc
    ∧ remnant_L (Particle.id r) = L
    ∧ (proj_side r → Forall (λ q, ¬ (is_remnant q ∧ proj_side q)) e2 →
       nProtonProj c = Zc ∧ nNeutronProj c = A - Zc)
    ∧ (targ_side r → Forall (λ q, ¬ (is_remnant q ∧ targ_side q)) e2 →
       nProtonTarg c = Zc ∧ nNeutronTarg c = A - Zc).
Proof.
  intros HA HZ HL Hid.
  destruct (remnant_code_digits A Zc L HA HZ HL) as (Hr & DA & DZ & DL).
  assert (Hr' : is_remnant r) by (unfold is_remnant in *; by rewrite Hid).
  eexists _, _. split; [apply getNremn_fold|].
  rewrite Hid, DA, DZ, DL. do 3 (split; [done|]).
  pose proof (getNremn_loop_last e1 r e2 Hr') as Hlast.
  rewrite Hid, DA, DZ in Hlast. exact Hlast.
Qed.

(** The remnant of lead, [A = 208], [Zc = 82], [L = 0], moving towards
    positive [z]: 82 protons and 126 neutrons on the projectile side. *)
Lemma getNremn_decodes_witness :
  ∃ (c : Counts) (w : bool),
    getNremn ([] ++ remnant 1000822089 1%float :: []) (mkCounts 1 2 3 4) = Ok (c, w)
    ∧ remnant_A 1000822089 = 208
    ∧ remnant_Z 1000822089 = 82
    ∧ remnant_L 1000822089 = 0
    ∧ (proj_side (remnant 1000822089 1%float) →
       Forall (λ q, ¬ (is_remnant q ∧ proj_side q)) [] →
       nProtonProj c = 82 ∧ nNeutronProj c = 126)
    ∧ (targ_side (remnant 1000822089 1%float) →
       Forall (λ q, ¬ (is_remnant q ∧ targ_side q)) [] →
       nProtonTarg c = 82 ∧ nNeutronTarg c = 126).
Proof.
  apply (getNremn_decodes_remnant [] [] (remnant 1000822089 1%float) 208 82 0
           (mkCounts 1 2 3 4)); [lia | lia | lia | reflexivity].
Defined.

(** C9: [getNremn] completes on every event, whatever the number of
    remnants, and the counts it returns for a side are those decoded from
    the last remnant of that side in event order: a later remnant
    overwrites an earlier one of the same sign, nothing is accumulated. *)
Theorem getNremn_last_remnant_wins (event : Event) (out : Counts) :
  ∃ (c : Counts) (w : bool),
    getNremn event out = Ok (c, w)
    ∧ (∀ (e1 : Event) (r : Particle.t) (e2 : Event),
         event = e1 ++ r :: e2 → is_remnant r → proj_side r →
         Forall (λ q, ¬ (is_remnant q ∧ proj_side q)) e2 →
         nProtonProj c = remnant_Z (Particle.id r)
         ∧ nNeutronProj c = remnant_A (Particle.id r) - remnant_Z (Particle.id r))
    ∧ (∀ (e1 : Event) (r : Particle.t) (e2 : Event),
         event = e1 ++ r :: e2 → is_remnant r → targ_side r →
         Forall (λ q, ¬ (is_remnant q ∧ targ_side q)) e2 →
         nProtonTarg c = remnant_Z (Particle.id r)
         ∧ nNeutronTarg c = remnant_A (Particle.id r) - remnant_Z (Particle.id r)).
Proof.
  eexists _, _. split; [apply getNremn_fold|].
  split; intros e1 r e2 -> Hr Hside Hlater;
    by apply (getNremn_loop_last e1 r e2 Hr).
Qed.

(** Two projectile-side remnants, lead then helium-3: the counts are those
    of the second one, not the sums. *)
Example getNremn_two_remnants :
  getNremn [remnant 1000822089 1%float; remnant 1000020039 2%float] zeroCounts
  = Ok (mkCounts 2 1 0 0, false).
Proof. reflexivity. Qed.

(** ** getNpart *)

Lemma length_filter_snoc (P : NucleonPtr → Prop) `{∀ n, Decision (P n)}
    (l : list NucleonPtr) (n : NucleonPtr) :
  Z.of_nat (length (filter P (l ++ [n])))
  = Z.of_nat (length (filter P l)) + (if decide (P n) then 1 else 0).
Proof.
  rewrite filter_app, length_app, filter_cons, filter_nil.
  destruct (decide (P n)); cbn [length]; lia.
Qed.

(** Case analysis on the species tests of the loop body. *)
Ltac species_cases :=
  repeat match goal with
         | |- context [decide ?P] => destruct (decide P)
         end;
  cbn in *; first [lia | congruence | done].

Lemma getNpart_proj_inv (hi : HIInfo.t) (sc : SubCollision.t)
    (ps ts : list NucleonPtr) (st : NpartState) :
  NpartInv hi ps ts st →
  NpartInv hi (ps ++ [SubCollision.proj sc]) ts (getNpart_proj hi sc st).
Proof.
  intros [Np Nt Ep Et Cpp Cnp Cpt Cnt]. unfold getNpart_proj, not_found.
  set (n := SubCollision.proj sc).
  destruct (wounded hi n) eqn:Hw; cbn [andb].
  - case_bool_decide as Hin.
    + constructor; cbn [projW targW counts]; try done.
      * apply NoDup_app. split; [done|]. split; [|apply NoDup_singleton].
        intros x Hx ->%list_elem_of_singleton. done.
      * intros x. rewrite !elem_of_app, !list_elem_of_singleton, Ep.
        split; [intros [[? ?]| ->]; auto | intros [[?| ->] ?]; auto].
      * rewrite length_filter_snoc, <- Cpp. species_cases.
      * rewrite length_filter_snoc, <- Cnp. species_cases.
      * rewrite <- Cpt. species_cases.
      * rewrite <- Cnt. species_cases.
    + constructor; try done.
      intros x. rewrite elem_of_app, list_elem_of_singleton, Ep.
      split; [intros [? ?]; auto|].
      intros [[?| ->] ?]; [done|]. by apply Ep.
  - constructor; try done.
    intros x. rewrite elem_of_app, list_elem_of_singleton, Ep.
    split; [intros [? ?]; auto|]. intros [[?| ->] ?]; [done|congruence].
Qed.

Lemma getNpart_targ_inv (hi : HIInfo.t) (sc : SubCollision.t)
    (ps ts : list NucleonPtr) (st : NpartState) :
  NpartInv hi ps ts st →
  NpartInv hi ps (ts ++ [SubCollision.targ sc]) (getNpart_targ hi sc st).
Proof.
  intros [Np Nt Ep Et Cpp Cnp Cpt Cnt]. unfold getNpart_targ, not_found.
  set (n := SubCollision.targ sc).
  destruct (wounded hi n) eqn:Hw; cbn [andb].
  - case_bool_decide as Hin.
    + constructor; cbn [projW targW counts]; try done.
      * apply NoDup_app. split; [done|]. split; [|apply NoDup_singleton].
        intros x Hx ->%list_elem_of_singleton. done.
      * intros x. rewrite !elem_of_app, !list_elem_of_singleton, Et.
        split; [intros [[? ?]| ->]; auto | intros [[?| ->] ?]; auto].
      * rewrite <- Cpp. species_cases.
      * rewrite <- Cnp. species_cases.
      * rewrite length_filter_snoc, <- Cpt. species_cases.
      * rewrite length_filter_snoc, <- Cnt. species_cases.
    + constructor; try done.
      intros x. rewrite elem_of_app, list_elem_of_singleton, Et.
      split; [intros [? ?]; auto|].
      intros [[?| ->] ?]; [done|]. by apply Et.
  - constructor; try done.
    intros x. rewrite elem_of_app, list_elem_of_singleton, Et.
    split; [intros [? ?]; auto|]. intros [[?| ->] ?]; [done|congruence].
Qed.

Lemma getNpart_fold_inv (hi : HIInfo.t) (scs : list SubCollision.t)
    (ps ts : list NucleonPtr) (st : NpartState) :
  NpartInv hi ps ts st →
  NpartInv hi (ps ++ (SubCollision.proj <$> scs)) (ts ++ (SubCollision.targ <$> scs))
    (fold_left (λ st sc, getNpart_targ hi sc (getNpart_proj hi sc st)) scs st).
Proof.
  revert ps ts st. induction scs as [|sc scs IH]; intros ps ts st Hinv.
  - cbn. by rewrite !app_nil_r.
  - cbn [fold_left fmap list_fmap].
    rewrite (cons_middle _ ps), (cons_middle _ ts), !app_assoc.
    apply IH. by apply getNpart_targ_inv, getNpart_proj_inv.
Qed.

Lemma getNpart_loop_inv (hi : HIInfo.t) (scs : list SubCollision.t) :
  NpartInv hi (SubCollision.proj <$> scs) (SubCollision.targ <$> scs)
    (getNpart_loop hi scs).
Proof.
  apply (getNpart_fold_inv hi scs [] []).
  constructor; cbn; try done; try apply NoDup_nil_2;
    intros n; rewrite elem_of_nil; tauto.
Qed.

(** A vector that holds the wounded nucleons of [ns] once each has as many
    entries of species [code] as [ns] has distinct participants of that
    species. *)
Lemma count_participants (hi : HIInfo.t) (code : Z) (W ns : list NucleonPtr) :
  NoDup W →
  (∀ n, n ∈ W ↔ n ∈ ns ∧ wounded hi n = true) →
  Z.of_nat (length (filter (λ n, Nucleon.id (HIInfo.nucleon hi n) = code) W))
  = Z.of_nat (size (participants hi code ns)).
Proof.
  intros HW Hel. unfold participants. f_equal.
  rewrite <- (size_list_to_set (C := gset NucleonPtr)) by by apply NoDup_filter.
  f_equal. apply set_eq. intros x.
  rewrite !elem_of_list_to_set, !list_elem_of_filter, Hel.
  unfold participant, wounded.
  rewrite orb_true_iff, !bool_decide_eq_true. tauto.
Qed.

(** C3: each counter of [getNpart] is the number of distinct nucleons, by
    address, met on its side of the sub-collisions whose status is absorbed
    or diffractive and whose species code is 2212 (protons) or 2112
    (neutrons); a nucleon that takes part in several sub-collisions is one
    element of that set and is counted once. *)
Theorem getNpart_counts_distinct (info : Info.t) (hi : HIInfo.t) (out : Counts) :
  Info.hiInfo info = Some hi →
  let c := getNpart info out in
  let ps := SubCollision.proj <$> HIInfo.subCollisions hi in
  let ts := SubCollision.targ <$> HIInfo.subCollisions hi in
  nProtonProj c = Z.of_nat (size (participants hi 2212 ps))
  ∧ nNeutronProj c = Z.of_nat (size (participants hi 2112 ps))
  ∧ nProtonTarg c = Z.of_nat (size (participants hi 2212 ts))
  ∧ nNeutronTarg c = Z.of_nat (size (participants hi 2112 ts)).
Proof.
  intros Hhi. unfold getNpart. rewrite Hhi.
  destruct (getNpart_loop_inv hi (HIInfo.subCollisions hi))
    as [Np Nt Ep Et Cpp Cnp Cpt Cnt].
  unfold getNpart_loop in *. cbv zeta.
  rewrite Cpp, Cnp, Cpt, Cnt.
  repeat split; by apply count_participants.
Qed.

(** The absorbed proton 1 meets the target nucleons 11 and 12: one
    projectile proton, one target proton, one target neutron. *)
Lemma getNpart_witness :
  let c := getNpart (heavyIon [SubCollision.mk 1 11; SubCollision.mk 1 12])
             (mkCounts 9 9 9 9) in
  nProtonProj c = 1 ∧ nNeutronProj c = 0 ∧ nProtonTarg c = 1 ∧ nNeutronTarg c = 1.
Proof.
  pose proof (getNpart_counts_distinct
                (heavyIon [SubCollision.mk 1 11; SubCollision.mk 1 12])
                (HIInfo.mk 0%float [SubCollision.mk 1 11; SubCollision.mk 1 12] nucleons)
                (mkCounts 9 9 9 9) eq_refl) as W.
  vm_compute in W. vm_compute. exact W.
Defined.

(** ** selectFromAncestor: the selection *)

Section Selection.

Context `{PythiaLib}.

Lemma Event_indices_elem (ev : Event) (i : Z) :
  i ∈ Event_indices ev ↔ is_Some (Event_at ev i).
Proof.
  unfold Event_indices. rewrite elem_of_list_to_set, elem_of_seqZ, Event_at_is_Some.
  lia.
Qed.

Lemma Event_indices_size (ev : Event) : size (Event_indices ev) = length ev.
Proof.
  unfold Event_indices. rewrite size_list_to_set by apply NoDup_seqZ.
  rewrite length_seqZ. unfold Event_size. lia.
Qed.

(** Once an error is reached the remaining calls of a loop are skipped. *)
Lemma fold_left_not_Ok {A B : Type} (f : A → B → result A) (l : list B)
    (r : result A) :
  (∀ a, r ≠ Ok a) →
  fold_left (λ acc j, a ← acc; f a j) l r = r.
Proof.
  intros Hr. induction l as [|j l IH]; [done|].
  cbn [fold_left]. destruct r as [a| | |]; [by destruct (Hr a)|exact IH|exact IH|exact IH].
Qed.

(** The calls on a daughter list, when each of them succeeds and adds the
    descendants of its argument. *)
Lemma select_daughters (fuel : nat) (ev : Event) (dl : list Z) (S1 : gset Z) :
  (∀ j, j ∈ dl → ∀ S0, ∃ S,
      select fuel ev j S0 = Ok S ∧ ∀ x, x ∈ S ↔ x ∈ S0 ∨ descendant ev j x) →
  ∃ S, fold_left (λ acc j, selected ← acc; select fuel ev j selected) dl (Ok S1) = Ok S
       ∧ ∀ x, x ∈ S ↔ x ∈ S1 ∨ ∃ j, j ∈ dl ∧ descendant ev j x.
Proof.
  revert S1. induction dl as [|j dl IH]; intros S1 Hdl.
  - exists S1. split; [done|]. intros x. split; [auto|].
    intros [?|(j & Hj & _)]; [done|]. by apply elem_of_nil in Hj.
  - destruct (Hdl j (list_elem_of_here _ _) S1) as (S2 & E2 & H2).
    destruct (IH S2) as (S3 & E3 & H3).
    { intros j' Hj'. apply Hdl. by apply list_elem_of_further. }
    exists S3. split.
    + cbn [fold_left]. cbn. rewrite E2. exact E3.
    + intros x. rewrite H3, H2. split.
      * intros [[?|?]|(j' & Hj' & ?)]; [by left| |].
        -- right. exists j. split; [apply list_elem_of_here|done].
        -- right. exists j'. split; [by apply list_elem_of_further|done].
      * intros [?|(j' & Hj' & Hd)]; [by do 2 left|].
        apply elem_of_cons in Hj' as [->|Hj']; [by left; right|].
        right. by exists j'.
Qed.

(** On an acyclic record whose daughter indices are valid, the selection
    started at an entry that has [seen] among its strict ancestors returns
    with fuel [length ev - size seen], and adds exactly the descendants of
    the entry. *)
Lemma select_descendants (ev : Event) (fuel : nat) :
  acyclic ev → links_closed ev →
  ∀ (seen : gset Z) (i : Z) (S0 : gset Z),
    is_Some (Event_at ev i) →
    seen ⊆ Event_indices ev →
    (∀ a, a ∈ seen → tc (daughter_of ev) a i) →
    (length ev ≤ fuel + size seen)%nat →
    ∃ S, select fuel ev i S0 = Ok S ∧ ∀ x, x ∈ S ↔ x ∈ S0 ∨ descendant ev i x.
Proof.
  intros Hacyc Hclosed. induction fuel as [|fuel IH]; intros seen i S0 Hi Hseen Hanc Hfuel.
  - exfalso.
    assert (Hni : i ∉ seen) by (intros Hin; by apply (Hacyc i), Hanc).
    assert (Hsub : {[i]} ∪ seen ⊆ Event_indices ev).
    { apply union_least; [|done]. apply singleton_subseteq_l.
      by apply Event_indices_elem. }
    apply subseteq_size in Hsub.
    rewrite size_union, size_singleton, Event_indices_size in Hsub
      by (by apply disjoint_singleton_l).
    lia.
  - destruct Hi as [p Hp]. cbn [select]. rewrite Hp.
    assert (Hni : i ∉ seen) by (intros Hin; by apply (Hacyc i), Hanc).
    destruct (select_daughters fuel ev (daughterList ev p) ({[i]} ∪ S0)) as (S & ES & HS).
    { intros j Hj S1.
      assert (Hij : daughter_of ev i j) by (by exists p).
      apply (IH ({[i]} ∪ seen)).
      - by apply (Hclosed i).
      - apply union_least; [|done]. apply singleton_subseteq_l.
        apply Event_indices_elem. by exists p.
      - intros a [->%elem_of_singleton|Ha]%elem_of_union.
        + by apply tc_once.
        + eapply tc_r; [by apply Hanc|done].
      - rewrite size_union, size_singleton by (by apply disjoint_singleton_l). lia. }
    exists S. split; [exact ES|].
    intros x. rewrite HS, elem_of_union, elem_of_singleton. unfold descendant. split.
    + intros [[->|?]|(j & Hj & Hd)]; [right; apply rtc_refl|by left|].
      right. eapply rtc_l; [|exact Hd]. by exists p.
    + intros [?|Hd]; [by left; right|].
      apply rtc_inv in Hd as [->|(j & (p' & Hp' & Hj) & Hd)]; [by left; left|].
      right. exists j. split; [|done]. congruence.
Qed.

(** A loop of calls that returns has returned from each call. *)
Lemma select_daughters_Ok (fuel : nat) (ev : Event) (dl : list Z)
    (r : result (gset Z)) (S : gset Z) :
  fold_left (λ acc j, selected ← acc; select fuel ev j selected) dl r = Ok S →
  ∀ j, j ∈ dl → ∃ S1 S2, select fuel ev j S1 = Ok S2.
Proof.
  revert r. induction dl as [|j dl IH]; intros r Hr j' Hj'.
  - by apply elem_of_nil in Hj'.
  - cbn [fold_left] in Hr. apply elem_of_cons in Hj' as [->|Hj'].
    + destruct r as [S1| | |].
      * destruct (select fuel ev j S1) as [S2| | |] eqn:E; [by exists S1, S2| | |];
          cbn in Hr; rewrite E in Hr;
          rewrite fold_left_not_Ok in Hr by (intros ?; discriminate); discriminate.
      * cbn in Hr. rewrite fold_left_not_Ok in Hr by (intros ?; discriminate).
        discriminate.
      * cbn in Hr. rewrite fold_left_not_Ok in Hr by (intros ?; discriminate).
        discriminate.
      * cbn in Hr. rewrite fold_left_not_Ok in Hr by (intros ?; discriminate).
        discriminate.
    + by apply (IH _ Hr).
Qed.

(** The lambda does not remember the entries it has visited: when a cycle
    can be reached from the ancestor no amount of fuel lets the selection
    return. *)
Lemma select_cycle (ev : Event) (fuel : nat) :
  ∀ (i : Z) (S0 S : gset Z),
    (∃ x, descendant ev i x ∧ tc (daughter_of ev) x x) →
    select fuel ev i S0 ≠ Ok S.
Proof.
  induction fuel as [|fuel IH]; intros i S0 S (x & Hd & Hc); [discriminate|].
  assert (Hj : ∃ j, daughter_of ev i j
                    ∧ ∃ x, descendant ev j x ∧ tc (daughter_of ev) x x).
  { apply rtc_inv in Hd as [->|(j & Hij & Hjx)].
    - inversion Hc as [? ? Hxx|? j ? Hxj Hjx]; subst.
      + exists x. split; [done|]. exists x. split; [apply rtc_refl|done].
      + exists j. split; [done|]. exists x. split; [by apply tc_rtc|done].
    - exists j. split; [done|]. by exists x. }
  destruct Hj as (j & (p & Hp & Hj) & Hcycle).
  cbn [select]. rewrite Hp. intros Hrun.
  destruct (select_daughters_Ok _ _ _ _ _ Hrun j Hj) as (S1 & S2 & E).
  by apply (IH j S1 S2 Hcycle).
Qed.

(** With fuel at least the size of the record, the selection returns the
    set of descendants of the ancestor. *)
Lemma select_closure (ev : Event) (fuel : nat) (ancestor : Z) :
  acyclic ev → links_closed ev → is_Some (Event_at ev ancestor) →
  (length ev ≤ fuel)%nat →
  ∃ S, select fuel ev ancestor ∅ = Ok S ∧ ∀ x, x ∈ S ↔ descendant ev ancestor x.
Proof.
  intros Hacyc Hclosed Ha Hfuel.
  destruct (select_descendants ev fuel Hacyc Hclosed ∅ ancestor ∅) as (S & ES & HS);
    [done|apply empty_subseteq| |rewrite size_empty; lia|].
  { intros a Hin. by apply not_elem_of_empty in Hin. }
  exists S. split; [done|]. intros x. rewrite HS. split; [|by right].
  intros [Hx|Hx]; [by apply not_elem_of_empty in Hx|done].
Qed.

End Selection.

(** ** selectFromAncestor: renumbering and appending *)

Lemma set_iter_elem (selected : gset Z) (x : Z) :
  x ∈ set_iter selected ↔ x ∈ selected.
Proof.
  unfold set_iter. rewrite merge_sort_Permutation. apply elem_of_elements.
Qed.

Lemma set_iter_NoDup (selected : gset Z) : NoDup (set_iter selected).
Proof.
  unfold set_iter. rewrite merge_sort_Permutation. apply NoDup_elements.
Qed.

Lemma set_iter_length (selected : gset Z) :
  length (set_iter selected) = size selected.
Proof. unfold set_iter. by rewrite merge_sort_Permutation. Qed.


(** The first loop gives consecutive positions, from [index] on, to the
    indices in the order of their visit. *)
Lemma assign_indices_fold (sel : list Z) (indexMap : gmap Z Z) (index : Z) :
  NoDup sel →
  let r := fold_left (λ '(indexMap, index) i, (<[i := index]> indexMap, index + 1))
             sel (indexMap, index) in
  r.2 = index + Z.of_nat (length sel)
  ∧ (∀ (n : nat) (k : Z), sel !! n = Some k → r.1 !! k = Some (index + Z.of_nat n))
  ∧ (∀ k, k ∉ sel → r.1 !! k = indexMap !! k).
Proof.
  revert indexMap index. induction sel as [|i sel IH]; intros m index Hnd; cbn zeta.
  - cbn. split; [lia|]. split; [intros n k Hn; by rewrite lookup_nil in Hn|done].
  - apply NoDup_cons in Hnd as [Hi Hnd]. cbn [fold_left].
    destruct (IH (<[i := index]> m) (index + 1) Hnd) as (Hidx & Hin & Hout).
    split; [cbn [length]; lia|]. split.
    + intros [|n] k Hn; cbn in Hn.
      * injection Hn as ->. rewrite Hout, lookup_insert_eq by done. f_equal. lia.
      * rewrite (Hin n k Hn). f_equal. lia.
    + intros k Hk. apply not_elem_of_cons in Hk as [Hne Hk].
      rewrite Hout by done. by apply lookup_insert_ne.
Qed.

Lemma out_index_selected (selected : gset Z) (base : Z) (n : nat) (k : Z) :
  set_iter selected !! n = Some k → out_index selected base k = base + Z.of_nat n.
Proof.
  intros Hn. unfold out_index, assign_indices.
  destruct (assign_indices_fold (set_iter selected) ∅ base (set_iter_NoDup _))
    as (_ & Hin & _).
  by rewrite (Hin n k Hn).
Qed.

Lemma out_index_unselected (selected : gset Z) (base : Z) (k : Z) :
  k ∉ selected → out_index selected base k = 0.
Proof.
  intros Hk. unfold out_index, assign_indices.
  destruct (assign_indices_fold (set_iter selected) ∅ base (set_iter_NoDup _))
    as (_ & _ & Hout).
  rewrite Hout by (by rewrite set_iter_elem). by rewrite lookup_empty.
Qed.

(** A translated link is unset, or a position in the appended block. *)
Lemma out_index_range (selected : gset Z) (base : Z) (k : Z) :
  out_index selected base k = 0
  ∨ base ≤ out_index selected base k < base + Z.of_nat (size selected).
Proof.
  destruct (decide (k ∈ selected)) as [Hk|Hk].
  - right. apply set_iter_elem, list_elem_of_lookup in Hk as [n Hn].
    rewrite (out_index_selected _ _ n) by done.
    apply lookup_lt_Some in Hn. rewrite set_iter_length in Hn. lia.
  - left. by apply out_index_unselected.
Qed.

(** [indexMap[k]] returns the value of the key, or [0]; the keys it
    inserts carry [0], so that later reads are not affected. *)
Lemma map_index_default (indexMap : gmap Z Z) (k : Z) :
  (map_index indexMap k).1 = default 0 (indexMap !! k)
  ∧ ∀ k', default 0 ((map_index indexMap k).2 !! k') = default 0 (indexMap !! k').
Proof.
  unfold map_index. destruct (indexMap !! k) as [v|] eqn:E; cbn; [done|].
  split; [done|]. intros k'. destruct (decide (k = k')) as [<-|Hne].
  - by rewrite lookup_insert_eq, E.
  - by rewrite lookup_insert_ne.
Qed.

Section Append.

Context `{PythiaLib}.

(** One iteration of the second loop appends the particle read from the
    generator's event, its links translated by the index map. *)
Lemma append_selected_spec (mPythia : Pythia.t) (f : Z → Z) (i : Z)
    (indexMap : gmap Z Z) (outputEvent : Event) :
  (∀ k, default 0 (indexMap !! k) = f k) →
  match Event_at (Pythia.event mPythia) i with
  | Some p =>
      ∃ indexMap', (∀ k, default 0 (indexMap' !! k) = f k)
        ∧ append_selected mPythia i (indexMap, outputEvent)
          = Ok (indexMap', outputEvent ++ [remap f p])
  | None => append_selected mPythia i (indexMap, outputEvent) = OutOfRange
  end.
Proof.
  intros Hm. unfold append_selected.
  destruct (Event_at (Pythia.event mPythia) i) as [p|]; [|done].
  destruct (map_index_default indexMap (Particle.mother1 p)) as [V1 K1].
  destruct (map_index indexMap (Particle.mother1 p)) as [m1 M1]. cbn [fst snd] in *.
  destruct (map_index_default M1 (Particle.mother2 p)) as [V2 K2].
  destruct (map_index M1 (Particle.mother2 p)) as [m2 M2]. cbn [fst snd] in *.
  destruct (map_index_default M2 (Particle.daughter1 p)) as [V3 K3].
  destruct (map_index M2 (Particle.daughter1 p)) as [d1 M3]. cbn [fst snd] in *.
  destruct (map_index_default M3 (Particle.daughter2 p)) as [V4 K4].
  destruct (map_index M3 (Particle.daughter2 p)) as [d2 M4]. cbn [fst snd] in *.
  exists M4. split.
  - intros k. by rewrite K4, K3, K2, K1.
  - unfold Event_append, remap. do 3 f_equal.
    subst m1 m2 d1 d2. by rewrite K3, K2, K1, K2, K1, K1, !Hm.
Qed.

(** The second loop appends the entries read before the first read that
    fails, and ends normally when no read fails. *)
Lemma append_loop_spec (mPythia : Pythia.t) (f : Z → Z) (sel : list Z)
    (indexMap : gmap Z Z) (outputEvent : Event) :
  (∀ k, default 0 (indexMap !! k) = f k) →
  append_loop mPythia sel indexMap outputEvent
  = (outputEvent ++ (remap f <$> read_prefix (Pythia.event mPythia) sel),
     match mapM (Event_at (Pythia.event mPythia)) sel with
     | Some _ => Ok ()
     | None => OutOfRange
     end).
Proof.
  revert indexMap outputEvent. induction sel as [|i sel IH]; intros m out Hm.
  - cbn. by rewrite app_nil_r.
  - pose proof (append_selected_spec mPythia f i m out Hm) as Hstep.
    cbn [append_loop read_prefix mapM].
    destruct (Event_at (Pythia.event mPythia) i) as [p|].
    + destruct Hstep as (m' & Hm' & ->).
      rewrite (IH m' (out ++ [remap f p]) Hm'). cbn [fmap list_fmap].
      rewrite <- app_assoc. cbn [app]. f_equal.
      by destruct (mapM _ sel).
    + rewrite Hstep. cbn. by rewrite app_nil_r.
Qed.

Lemma read_prefix_all (ev : Event) (sel : list Z) (ps : list Particle.t) :
  mapM (Event_at ev) sel = Some ps → read_prefix ev sel = ps.
Proof.
  revert ps. induction sel as [|i sel IH]; intros ps; cbn [mapM read_prefix].
  - by intros [= <-].
  - destruct (Event_at ev i) as [p|]; [|done]. cbn.
    destruct (mapM _ sel) as [ps'|]; [|done]. cbn.
    intros [= <-]. by rewrite (IH ps').
Qed.

(** [selectFromAncestor] with the output event that a call leaves, however
    it ends. *)
Lemma selectFromAncestor_run_spec (fuel : nat) (mPythia : Pythia.t)
    (ancestor : Z) (inputEvent outputEvent : Event) :
  selectFromAncestor_run fuel mPythia ancestor inputEvent outputEvent
  = match select fuel inputEvent ancestor ∅ with
    | Ok selected =>
        (outputEvent
         ++ (remap (out_index selected (Event_size outputEvent))
               <$> read_prefix (Pythia.event mPythia) (set_iter selected)),
         match mapM (Event_at (Pythia.event mPythia)) (set_iter selected) with
         | Some _ => Ok ()
         | None => OutOfRange
         end)
    | OutOfRange => (outputEvent, OutOfRange)
    | OutOfFuel => (outputEvent, OutOfFuel)
    | Halted => (outputEvent, Halted)
    end.
Proof.
  unfold selectFromAncestor_run.
  destruct (select fuel inputEvent ancestor ∅) as [S| | |]; [|done|done|done].
  pose proof (append_loop_spec mPythia (out_index S (Event_size outputEvent))
                (set_iter S) (assign_indices (set_iter S) (Event_size outputEvent)).1
                outputEvent (λ k, eq_refl)) as Hloop.
  by destruct (assign_indices _ _) as [m0 idx].
Qed.

(** [selectFromAncestor] in closed form: the particles of the generator's
    event at the selected indices, in increasing order of index, with their
    links translated, are appended to the output event. *)
Lemma selectFromAncestor_spec (fuel : nat) (mPythia : Pythia.t) (ancestor : Z)
    (inputEvent outputEvent : Event) :
  selectFromAncestor fuel mPythia ancestor inputEvent outputEvent
  = selected ← select fuel inputEvent ancestor ∅;
    match mapM (Event_at (Pythia.event mPythia)) (set_iter selected) with
    | Some ps =>
        Ok (outputEvent ++ (remap (out_index selected (Event_size outputEvent)) <$> ps))
    | None => OutOfRange
    end.
Proof.
  unfold selectFromAncestor. rewrite selectFromAncestor_run_spec.
  destruct (select fuel inputEvent ancestor ∅) as [S| | |]; [|done|done|done].
  cbn. destruct (mapM _ _) as [ps|] eqn:Eps; [|done].
  by rewrite (read_prefix_all _ _ _ Eps).
Qed.

End Append.

(** ** selectFromAncestor: the links of the appended particles *)

Lemma remap_links (f : Z → Z) (p : Particle.t) :
  Particle.links (remap f p) = f <$> Particle.links p.
Proof. reflexivity. Qed.

Lemma Event_at_app_r (ev1 ev2 : Event) (n : nat) :
  Event_at (ev1 ++ ev2) (Event_size ev1 + Z.of_nat n) = ev2 !! n.
Proof.
  unfold Event_at, Event_size. rewrite decide_True by lia.
  rewrite lookup_app_r by lia. f_equal. lia.
Qed.

(** When [selectFromAncestor] returns, every mother and daughter index
    stored in an appended particle is unset (0) or the position of an
    appended particle, below the length of the output event; an index that
    designated a selected entry is the output position of the copy of that
    entry. *)
Theorem selectFromAncestor_links_valid `{PythiaLib} (fuel : nat)
    (mPythia : Pythia.t) (ancestor : Z) (inputEvent outputEvent out : Event) :
  selectFromAncestor fuel mPythia ancestor inputEvent outputEvent = Ok out →
  ∃ (selected : gset Z) (appended : Event),
    select fuel inputEvent ancestor ∅ = Ok selected
    ∧ out = outputEvent ++ appended
    ∧ length appended = size selected
    ∧ (∀ (q : Particle.t) (v : Z),
         q ∈ appended → v ∈ Particle.links q →
         v = 0 ∨ Event_size outputEvent ≤ v < Event_size out)
    ∧ (∀ (n : nat) (i : Z),
         set_iter selected !! n = Some i →
         ∃ p q : Particle.t,
           Event_at (Pythia.event mPythia) i = Some p
           ∧ appended !! n = Some q
           ∧ Forall2
               (λ k v, if decide (k ∈ selected)
                       then ∃ n' : nat,
                              set_iter selected !! n' = Some k
                              ∧ v = Event_size outputEvent + Z.of_nat n'
                              ∧ Event_at out v = appended !! n'
                       else v = 0)
               (Particle.links p) (Particle.links q)).
Proof.
  rewrite selectFromAncestor_spec. intros Hrun.
  destruct (select fuel inputEvent ancestor ∅) as [S| | |]; cbn in Hrun;
    [|discriminate|discriminate|discriminate].
  destruct (mapM _ _) as [ps|] eqn:Eps; [|discriminate]. injection Hrun as <-.
  apply mapM_Some in Eps.
  set (f := out_index S (Event_size outputEvent)).
  assert (Hlen : length (remap f <$> ps) = size S).
  { rewrite length_fmap, <- (Forall2_length _ _ _ Eps). apply set_iter_length. }
  exists S, (remap f <$> ps). split; [done|]. split; [done|]. split; [done|]. split.
  - intros q v (p & -> & Hp)%list_elem_of_fmap Hv.
    rewrite remap_links in Hv. apply list_elem_of_fmap in Hv as (k & -> & _).
    unfold Event_size at 2. rewrite length_app, Hlen.
    destruct (out_index_range S (Event_size outputEvent) k) as [?|?]; [by left|right].
    unfold f, Event_size in *. lia.
  - intros n i Hn.
    destruct (Forall2_lookup_l _ _ _ _ _ Eps Hn) as (p & Hp & Hat).
    exists p, (remap f p). split; [done|]. split; [by rewrite list_lookup_fmap, Hp|].
    rewrite remap_links. apply Forall2_fmap_r, Forall_Forall2_diag, Forall_forall.
    intros k _. destruct (decide (k ∈ S)) as [Hk|Hk].
    + apply set_iter_elem, list_elem_of_lookup in Hk as [n' Hn'].
      exists n'. split; [done|]. unfold f.
      rewrite (out_index_selected _ _ n') by done. split; [done|].
      apply Event_at_app_r.
    + by apply out_index_unselected.
Qed.

(** The chain below entry 1 of [decayEvent], appended to an output event of
    three entries. *)
Lemma selectFromAncestor_links_witness :
  ∃ (selected : gset Z) (appended : Event),
    select (H := pythia83) 6 decayEvent 1 ∅ = Ok selected
    ∧ threeEntries
      ++ [particle 443 (-22) 0 0 4 5; particle 13 (-23) 3 0 6 0;
          particle (-13) (-23) 3 0 6 0; particle 22 1 4 5 0 0]
      = threeEntries ++ appended
    ∧ length appended = size selected
    ∧ (∀ (q : Particle.t) (v : Z),
         q ∈ appended → v ∈ Particle.links q →
         v = 0 ∨ Event_size threeEntries ≤ v
                 < Event_size
                     (threeEntries
                      ++ [particle 443 (-22) 0 0 4 5; particle 13 (-23) 3 0 6 0;
                          particle (-13) (-23) 3 0 6 0; particle 22 1 4 5 0 0]))
    ∧ (∀ (n : nat) (i : Z),
         set_iter selected !! n = Some i →
         ∃ p q : Particle.t,
           Event_at (Pythia.event decayPythia) i = Some p
           ∧ appended !! n = Some q
           ∧ Forall2
               (λ k v, if decide (k ∈ selected)
                       then ∃ n' : nat,
                              set_iter selected !! n' = Some k
                              ∧ v = Event_size threeEntries + Z.of_nat n'
                              ∧ Event_at
                                  (threeEntries
                                   ++ [particle 443 (-22) 0 0 4 5;
                                       particle 13 (-23) 3 0 6 0;
                                       particle (-13) (-23) 3 0 6 0;
                                       particle 22 1 4 5 0 0]) v
                                = appended !! n'
                       else v = 0)
               (Particle.links p) (Particle.links q)).
Proof.
  apply (selectFromAncestor_links_valid (H := pythia83) 6 decayPythia 1
           decayEvent threeEntries).
  vm_compute. reflexivity.
Defined.

(** C2, where the code departs from it.  The selection below entry 1 of
    [decayEvent] is {1, 2, 3, 4}, and the generator's own event record holds
    the entries 0 to 2 only.  The second loop appends the copies of the
    entries 1 and 2, whose links have been translated to the positions 3 to
    6 that the four copies were to take; the read of [mPythia.event[3]]
    then throws.  The output event is left with five entries, and the links
    5 and 6 of the appended particles designate no entry.  The loop reads
    [mPythia.event[i]] where the selection read [inputEvent[i]]. *)
Theorem selectFromAncestor_leaves_dangling_links :
  (selected ← select (H := pythia83) 6 decayEvent 1 ∅; Ok (set_iter selected))
  = Ok [1; 2; 3; 4]
  ∧ Pythia.event shortPythia
    = [particle 90 (-11) 0 0 0 0; particle 443 (-22) 0 0 2 3;
       particle 13 (-23) 1 0 4 0]
  ∧ selectFromAncestor_run (H := pythia83) 6 shortPythia 1 decayEvent threeEntries
    = (threeEntries ++ [particle 443 (-22) 0 0 4 5; particle 13 (-23) 3 0 6 0],
       OutOfRange)
  ∧ Event_size
      (threeEntries ++ [particle 443 (-22) 0 0 4 5; particle 13 (-23) 3 0 6 0])
    = 5.
Proof. repeat split; vm_compute; reflexivity. Qed.

(** ** selectFromAncestor: the appended sub-event *)

Lemma NoDup_only (l : list Z) (a : Z) :
  NoDup l → (∀ x, x ∈ l ↔ x = a) → l = [a].
Proof.
  intros Hnd Hel. destruct l as [|x l].
  - exfalso. by apply (elem_of_nil a), Hel.
  - assert (x = a) as -> by (apply Hel, list_elem_of_here).
    apply NoDup_cons in Hnd as [Hx _]. destruct l as [|y l]; [done|].
    exfalso. apply Hx.
    assert (y = a) as -> by (apply Hel, list_elem_of_further, list_elem_of_here).
    apply list_elem_of_here.
Qed.

Section SubEvent.

Context `{PythiaLib}.

Lemma descendant_in_range (ev : Event) (ancestor x : Z) :
  links_closed ev → is_Some (Event_at ev ancestor) →
  descendant ev ancestor x → is_Some (Event_at ev x).
Proof.
  intros Hclosed Ha Hd. apply rtc_inv_r in Hd as [<-|(y & _ & Hy)]; [done|].
  by apply (Hclosed y).
Qed.

(** A record whose daughters always come after their mother is acyclic. *)
Lemma acyclic_increasing (ev : Event) :
  (∀ i j, daughter_of ev i j → i < j) → acyclic ev.
Proof.
  intros Hinc x Hx.
  assert (Hlt : ∀ a b, tc (daughter_of ev) a b → a < b).
  { intros a b Hab. induction Hab as [a b Hab|a b c Hab _ IH]; [by apply Hinc|].
    apply Hinc in Hab. lia. }
  apply Hlt in Hx. lia.
Qed.

(** When the input event is the generator's own event record, is acyclic
    and has valid daughter indices, [selectFromAncestor] returns, and
    appends one copy, up to its links, of each entry that is the ancestor
    or one of its transitive daughters, and nothing else; an ancestor
    without daughters is appended alone. *)
Theorem selectFromAncestor_closure (fuel : nat) (mPythia : Pythia.t)
    (ancestor : Z) (inputEvent outputEvent : Event) :
  acyclic inputEvent → links_closed inputEvent →
  is_Some (Event_at inputEvent ancestor) →
  (length inputEvent ≤ fuel)%nat →
  Pythia.event mPythia = inputEvent →
  ∃ (selected : list Z) (appended : Event),
    selectFromAncestor fuel mPythia ancestor inputEvent outputEvent
    = Ok (outputEvent ++ appended)
    ∧ NoDup selected
    ∧ (∀ x, x ∈ selected ↔ descendant inputEvent ancestor x)
    ∧ Forall2 (λ i q, ∃ p f, Event_at inputEvent i = Some p ∧ q = remap f p)
        selected appended
    ∧ (∀ p, Event_at inputEvent ancestor = Some p →
            daughterList inputEvent p = [] → selected = [ancestor]).
Proof.
  intros Hacyc Hclosed Ha Hfuel Hev.
  destruct (select_closure inputEvent fuel ancestor Hacyc Hclosed Ha Hfuel)
    as (S & ES & HS).
  assert (Hps : is_Some (mapM (Event_at inputEvent) (set_iter S))).
  { apply mapM_is_Some_2, Forall_forall. intros x Hx%set_iter_elem%HS.
    by apply (descendant_in_range inputEvent ancestor). }
  destruct Hps as [ps Hps].
  exists (set_iter S), (remap (out_index S (Event_size outputEvent)) <$> ps).
  split; [|split; [|split; [|split]]].
  - rewrite selectFromAncestor_spec, ES, Hev. cbn. by rewrite Hps.
  - apply set_iter_NoDup.
  - intros x. by rewrite set_iter_elem.
  - apply Forall2_fmap_r. apply mapM_Some in Hps.
    eapply Forall2_impl; [exact Hps|]. intros i p Hp.
    by exists p, (out_index S (Event_size outputEvent)).
  - intros p Hp Hnone. apply NoDup_only; [apply set_iter_NoDup|].
    intros x. rewrite set_iter_elem, HS. unfold descendant. split.
    + intros [->|(j & (p' & Hp' & Hj) & _)]%rtc_inv; [done|].
      rewrite Hp in Hp'. injection Hp' as <-. rewrite Hnone in Hj.
      by apply elem_of_nil in Hj.
    + intros ->. apply rtc_refl.
Qed.

End SubEvent.

Lemma decayEvent_daughters (i j : Z) :
  daughter_of (H := pythia83) decayEvent i j → i < j ≤ 4.
Proof.
  intros (p & Hp & Hj).
  assert (Hi : 0 ≤ i < 6) by (apply (Event_at_is_Some decayEvent); by exists p).
  assert (i = 0 ∨ i = 1 ∨ i = 2 ∨ i = 3 ∨ i = 4 ∨ i = 5) as Hcases by lia.
  apply list_elem_of_In in Hj.
  destruct Hcases as [-> | [-> | [-> | [-> | [-> | ->]]]]];
    injection Hp as <-; cbv in Hj; intuition lia.
Qed.

(** The chain of [decayEvent] satisfies the hypotheses: entry 4, reached
    through 2 and through 3, is appended once. *)
Lemma selectFromAncestor_closure_witness :
  ∃ (selected : list Z) (appended : Event),
    selectFromAncestor (H := pythia83) 6 decayPythia 1 decayEvent threeEntries
    = Ok (threeEntries ++ appended)
    ∧ NoDup selected
    ∧ (∀ x, x ∈ selected ↔ descendant (H := pythia83) decayEvent 1 x)
    ∧ Forall2 (λ i q, ∃ p f, Event_at decayEvent i = Some p ∧ q = remap f p)
        selected appended
    ∧ (∀ p, Event_at decayEvent 1 = Some p →
            daughterList (PythiaLib := pythia83) decayEvent p = [] → selected = [1]).
Proof.
  apply (selectFromAncestor_closure (H := pythia83) 6 decayPythia 1 decayEvent threeEntries).
  - apply acyclic_increasing. intros i j Hij. apply decayEvent_daughters in Hij. lia.
  - intros i j Hij. pose proof (decayEvent_daughters i j Hij) as Hr.
    destruct Hij as (p & [Hi _]%Event_at_Some & _).
    apply Event_at_is_Some. unfold Event_size. cbn. lia.
  - by eexists.
  - cbn. lia.
  - reflexivity.
Defined.

(** C1, where the code departs from it.  The input event holds a pion
    without daughters at index 1 and the generator's own event record holds
    a photon at that index: the particle appended to the output event is the
    photon, not the ancestor of the input event.  The second loop reads
    [mPythia.event[i]] where the selection read [inputEvent[i]]; with an
    empty generator event the same call does not return at all. *)
Theorem selectFromAncestor_reads_generator_event :
  Event_at pionEvent 1 = Some (particle 211 1 0 0 0 0)
  ∧ daughterList (PythiaLib := pythia83) pionEvent (particle 211 1 0 0 0 0) = []
  ∧ selectFromAncestor (H := pythia83) 2 photonPythia 1 pionEvent []
    = Ok [particle 22 1 0 0 0 0]
  ∧ selectFromAncestor (H := pythia83) 2 emptyPythia 1 pionEvent [] = OutOfRange.
Proof. repeat split; vm_compute; reflexivity. Qed.

(** * Further properties *)

(** ** selectFromAncestor: errors, order, and use with importParticles *)



(** The selection only adds to the set, and adds the entry it is called on. *)
Lemma select_extends `{PythiaLib} (fuel : nat) (ev : Event) :
  ∀ (i : Z) (S0 S : gset Z), select fuel ev i S0 = Ok S → {[i]} ∪ S0 ⊆ S.
Proof.
  induction fuel as [|fuel IH]; intros i S0 S Hrun; [discriminate|].
  cbn [select] in Hrun. destruct (Event_at ev i) as [p|]; [|discriminate].
  revert Hrun. generalize ({[i]} ∪ S0). generalize (daughterList ev p).
  intros dl. induction dl as [|j dl IHdl]; intros S1 Hrun.
  - cbn in Hrun. by injection Hrun as ->.
  - cbn [fold_left] in Hrun. cbn in Hrun.
    destruct (select fuel ev j S1) as [S2| | |] eqn:E2.
    + apply IH in E2. apply IHdl in Hrun.
      etrans; [|exact Hrun]. etrans; [|exact E2]. apply union_subseteq_r.
    + rewrite fold_left_not_Ok in Hrun by (intros ?; discriminate). discriminate.
    + rewrite fold_left_not_Ok in Hrun by (intros ?; discriminate). discriminate.
    + rewrite fold_left_not_Ok in Hrun by (intros ?; discriminate). discriminate.
Qed.

(** The selection has read every entry that it adds to the set. *)
Lemma select_in_range `{PythiaLib} (fuel : nat) (ev : Event) :
  ∀ (i : Z) (S0 S : gset Z),
    select fuel ev i S0 = Ok S →
    ∀ x, x ∈ S → x ∈ S0 ∨ is_Some (Event_at ev x).
Proof.
  induction fuel as [|fuel IH]; intros i S0 S Hrun; [discriminate|].
  cbn [select] in Hrun. destruct (Event_at ev i) as [p|] eqn:Ei; [|discriminate].
  assert (Hstart : ∀ x, x ∈ {[i]} ∪ S0 → x ∈ S0 ∨ is_Some (Event_at ev x)).
  { intros x [->%elem_of_singleton|Hx]%elem_of_union; [right; by rewrite Ei|by left]. }
  revert Hrun Hstart. generalize ({[i]} ∪ S0). generalize (daughterList ev p).
  intros dl. induction dl as [|j dl IHdl]; intros S1 Hrun Hstart.
  - cbn in Hrun. by injection Hrun as ->.
  - cbn [fold_left] in Hrun. cbn in Hrun.
    destruct (select fuel ev j S1) as [S2| | |] eqn:E2.
    + apply (IHdl S2 Hrun). intros x Hx.
      destruct (IH _ _ _ E2 x Hx) as [Hx1|Hx1]; [by apply Hstart|by right].
    + rewrite fold_left_not_Ok in Hrun by (intros ?; discriminate). discriminate.
    + rewrite fold_left_not_Ok in Hrun by (intros ?; discriminate). discriminate.
    + rewrite fold_left_not_Ok in Hrun by (intros ?; discriminate). discriminate.
Qed.

(** When the input event is the generator's own event record, the second
    loop reads only entries that the selection has read before: however
    the call ends, either it returns or nothing has been appended, and no
    appended particle holds a link that designates no entry of the output
    event. *)
Theorem selectFromAncestor_own_event_links `{PythiaLib} (fuel : nat)
    (mPythia : Pythia.t) (ancestor : Z) (inputEvent outputEvent out : Event)
    (r : result unit) :
  Pythia.event mPythia = inputEvent →
  selectFromAncestor_run fuel mPythia ancestor inputEvent outputEvent = (out, r) →
  ∃ appended : Event,
    out = outputEvent ++ appended
    ∧ (r = Ok () ∨ appended = [])
    ∧ ∀ (q : Particle.t) (v : Z),
        q ∈ appended → v ∈ Particle.links q →
        v = 0 ∨ Event_size outputEvent ≤ v < Event_size out.
Proof.
  intros Hev. rewrite selectFromAncestor_run_spec.
  destruct (select fuel inputEvent ancestor ∅) as [S| | |] eqn:ES.
  - assert (Hall : is_Some (mapM (Event_at (Pythia.event mPythia)) (set_iter S))).
    { apply mapM_is_Some_2, Forall_forall. intros i Hi%set_iter_elem.
      rewrite Hev.
      destruct (select_in_range _ _ _ _ _ ES i Hi) as [Hi0|Hi0]; [|done].
      by apply not_elem_of_empty in Hi0. }
    destruct Hall as [ps Eps]. rewrite Eps, (read_prefix_all _ _ _ Eps).
    intros [= <- <-]. apply mapM_Some in Eps.
    set (f := out_index S (Event_size outputEvent)).
    exists (remap f <$> ps). split; [done|]. split; [by left|].
    intros q v (p & -> & Hp)%list_elem_of_fmap Hv.
    rewrite remap_links in Hv. apply list_elem_of_fmap in Hv as (k & -> & _).
    unfold Event_size at 2.
    rewrite length_app, length_fmap, <- (Forall2_length _ _ _ Eps), set_iter_length.
    destruct (out_index_range S (Event_size outputEvent) k) as [?|?]; [by left|right].
    unfold f, Event_size in *. lia.
  - intros [= <- <-]. exists []. rewrite app_nil_r. split; [done|]. split; [by right|].
    intros q v Hq. by apply elem_of_nil in Hq.
  - intros [= <- <-]. exists []. rewrite app_nil_r. split; [done|]. split; [by right|].
    intros q v Hq. by apply elem_of_nil in Hq.
  - intros [= <- <-]. exists []. rewrite app_nil_r. split; [done|]. split; [by right|].
    intros q v Hq. by apply elem_of_nil in Hq.
Qed.

Lemma selectFromAncestor_own_event_links_witness :
  ∃ appended : Event,
    threeEntries
    ++ [particle 443 (-22) 0 0 4 5; particle 13 (-23) 3 0 6 0;
        particle (-13) (-23) 3 0 6 0; particle 22 1 4 5 0 0]
    = threeEntries ++ appended
    ∧ (Ok () = Ok () ∨ appended = [])
    ∧ ∀ (q : Particle.t) (v : Z),
        q ∈ appended → v ∈ Particle.links q →
        v = 0 ∨ Event_size threeEntries ≤ v
                < Event_size
                    (threeEntries
                     ++ [particle 443 (-22) 0 0 4 5; particle 13 (-23) 3 0 6 0;
                         particle (-13) (-23) 3 0 6 0; particle 22 1 4 5 0 0]).
Proof.
  apply (selectFromAncestor_own_event_links (H := pythia83) 6 decayPythia 1
           decayEvent threeEntries).
  - reflexivity.
  - vm_compute. reflexivity.
Defined.

(** When a cycle of the lineage can be reached from the ancestor,
    [selectFromAncestor] does not return, whatever the fuel: the recursive
    lambda visits the cycle again and again. *)
Theorem selectFromAncestor_cycle `{PythiaLib} (fuel : nat) (mPythia : Pythia.t)
    (ancestor x : Z) (inputEvent outputEvent : Event) :
  descendant inputEvent ancestor x →
  tc (daughter_of inputEvent) x x →
  ¬ ∃ out, selectFromAncestor fuel mPythia ancestor inputEvent outputEvent = Ok out.
Proof.
  intros Hd Hc [out Hrun]. rewrite selectFromAncestor_spec in Hrun.
  destruct (select fuel inputEvent ancestor ∅) as [S| | |] eqn:ES;
    [|discriminate|discriminate|discriminate].
  by apply (select_cycle inputEvent fuel ancestor ∅ S (ex_intro _ x (conj Hd Hc))).
Qed.

Lemma selectFromAncestor_cycle_witness :
  ¬ ∃ out,
      selectFromAncestor (H := pythia83) 1000
        (Pythia.mk loopEvent (Info.mk None) 0) 1 loopEvent [] = Ok out.
Proof.
  apply (selectFromAncestor_cycle (H := pythia83) 1000
           (Pythia.mk loopEvent (Info.mk None) 0) 1 2 loopEvent []).
  - apply rtc_once. exists (particle 21 (-23) 0 0 2 0). split; [reflexivity|].
    apply list_elem_of_here.
  - eapply tc_l; [|apply tc_once].
    + exists (particle 21 (-23) 1 0 1 0). split; [reflexivity|]. apply list_elem_of_here.
    + exists (particle 21 (-23) 0 0 2 0). split; [reflexivity|]. apply list_elem_of_here.
Defined.

(** [selectFromAncestor] returns exactly when the selection returns and
    every selected index is an index of the generator's own event
    record. *)
Theorem selectFromAncestor_returns_iff `{PythiaLib} (fuel : nat)
    (mPythia : Pythia.t) (ancestor : Z) (inputEvent outputEvent : Event) :
  (∃ out, selectFromAncestor fuel mPythia ancestor inputEvent outputEvent = Ok out)
  ↔ ∃ selected, select fuel inputEvent ancestor ∅ = Ok selected
                ∧ ∀ i, i ∈ selected → is_Some (Event_at (Pythia.event mPythia) i).
Proof.
  rewrite selectFromAncestor_spec. split.
  - intros [out Hrun].
    destruct (select fuel inputEvent ancestor ∅) as [S| | |];
      [|discriminate|discriminate|discriminate].
    exists S. split; [done|]. cbn in Hrun.
    destruct (mapM _ _) as [ps|] eqn:Eps; [|discriminate].
    assert (Hall : is_Some (mapM (Event_at (Pythia.event mPythia)) (set_iter S)))
      by (by exists ps).
    apply mapM_is_Some_1 in Hall. rewrite Forall_forall in Hall.
    intros i Hi. by apply (Hall i), set_iter_elem.
  - intros (S & -> & Hall). cbn.
    destruct (mapM_is_Some_2 (Event_at (Pythia.event mPythia)) (set_iter S)) as [ps ->].
    { apply Forall_forall. intros i Hi%set_iter_elem. by apply Hall. }
    by eexists.
Qed.



(** The translation of a link followed by the decrement of
    [importParticles], for an output event that held one entry. *)
Lemma out_index_import (selected : gset Z) (k : Z) :
  if decide (k ∈ selected)
  then ∃ n' : nat, set_iter selected !! n' = Some k
                   ∧ int_pred (out_index selected 1 k) = Z.of_nat n'
  else int_pred (out_index selected 1 k) = -1.
Proof.
  destruct (decide (k ∈ selected)) as [Hk|Hk].
  - apply set_iter_elem, list_elem_of_lookup in Hk as [n' Hn'].
    exists n'. split; [done|]. rewrite (out_index_selected _ _ n') by done.
    rewrite int_pred_above; unfold INT_MIN; lia.
  - by rewrite out_index_unselected.
Qed.

(** Extraction into an output event that holds the system entry only,
    followed by [importParticles]: one particle per selected entry is added
    to the particle list, in the order of the selection; a link to a
    selected entry has become the position, counted from the first new
    particle, of the copy of that entry, and any other link has become -1. *)
Theorem selectFromAncestor_importParticles `{PythiaLib} (enc : Z → Z → Z)
    (fuel : nat) (mPythia : Pythia.t) (ancestor : Z) (inputEvent : Event)
    (system : Particle.t) (out : Event) (mParticles : list TParticle.t) :
  selectFromAncestor fuel mPythia ancestor inputEvent [system] = Ok out →
  ∃ (selected : gset Z) (new : list TParticle.t),
    select fuel inputEvent ancestor ∅ = Ok selected
    ∧ importParticles enc out mParticles = Ok (true, mParticles ++ new)
    ∧ length new = size selected
    ∧ ∀ (n : nat) (i : Z),
        set_iter selected !! n = Some i →
        ∃ (p : Particle.t) (tp : TParticle.t),
          Event_at (Pythia.event mPythia) i = Some p
          ∧ new !! n = Some tp
          ∧ TParticle.fPdgCode tp = Particle.id p
          ∧ Forall2
              (λ k v, if decide (k ∈ selected)
                      then ∃ n' : nat, set_iter selected !! n' = Some k
                                       ∧ v = Z.of_nat n'
                      else v = -1)
              (Particle.links p)
              [TParticle.fMother1 tp; TParticle.fMother2 tp;
               TParticle.fDaughter1 tp; TParticle.fDaughter2 tp].
Proof.
  rewrite selectFromAncestor_spec. intros Hrun.
  destruct (select fuel inputEvent ancestor ∅) as [S| | |]; cbn in Hrun;
    [|discriminate|discriminate|discriminate].
  destruct (mapM _ _) as [ps|] eqn:Eps; [|discriminate]. injection Hrun as <-.
  apply mapM_Some in Eps. change (Event_size [system]) with 1.
  set (f := out_index S 1).
  exists S, (importParticle enc <$> (remap f <$> ps)).
  split; [done|]. split; [by rewrite importParticles_spec|]. split.
  - rewrite !length_fmap, <- (Forall2_length _ _ _ Eps). apply set_iter_length.
  - intros n i Hn.
    destruct (Forall2_lookup_l _ _ _ _ _ Eps Hn) as (p & Hp & Hat).
    exists p, (importParticle enc (remap f p)).
    split; [done|]. split; [by rewrite !list_lookup_fmap, Hp|]. split; [done|].
    unfold Particle.links. cbn.
    repeat constructor; apply out_index_import.
Qed.

Lemma selectFromAncestor_importParticles_witness :
  ∃ (selected : gset Z) (new : list TParticle.t),
    select (H := pythia83) 6 decayEvent 1 ∅ = Ok selected
    ∧ importParticles (H := pythia83) (λ hepmc gen, gen)
        [particle 90 (-11) 0 0 0 0;
         particle 443 (-22) 0 0 2 3; particle 13 (-23) 1 0 4 0;
         particle (-13) (-23) 1 0 4 0; particle 22 1 2 3 0 0] []
      = Ok (true, [] ++ new)
    ∧ length new = size selected
    ∧ ∀ (n : nat) (i : Z),
        set_iter selected !! n = Some i →
        ∃ (p : Particle.t) (tp : TParticle.t),
          Event_at (Pythia.event decayPythia) i = Some p
          ∧ new !! n = Some tp
          ∧ TParticle.fPdgCode tp = Particle.id p
          ∧ Forall2
              (λ k v, if decide (k ∈ selected)
                      then ∃ n' : nat, set_iter selected !! n' = Some k
                                       ∧ v = Z.of_nat n'
                      else v = -1)
              (Particle.links p)
              [TParticle.fMother1 tp; TParticle.fMother2 tp;
               TParticle.fDaughter1 tp; TParticle.fDaughter2 tp].
Proof.
  apply (selectFromAncestor_importParticles (H := pythia83) (λ hepmc gen, gen) 6
           decayPythia 1 decayEvent (particle 90 (-11) 0 0 0 0)).
  vm_compute. reflexivity.
Defined.

(** Extraction into an empty output event: the first appended particle
    takes position 0, so that a stored link equal to 0 stands either for an
    entry that was not selected or for the selected entry of least index. *)
Theorem selectFromAncestor_empty_output `{PythiaLib} (fuel : nat)
    (mPythia : Pythia.t) (ancestor : Z) (inputEvent out : Event) :
  selectFromAncestor fuel mPythia ancestor inputEvent [] = Ok out →
  ∃ (selected : gset Z) (first : Z),
    select fuel inputEvent ancestor ∅ = Ok selected
    ∧ set_iter selected !! 0%nat = Some first
    ∧ ∀ (n : nat) (i : Z),
        set_iter selected !! n = Some i →
        ∃ p q : Particle.t,
          Event_at (Pythia.event mPythia) i = Some p
          ∧ out !! n = Some q
          ∧ Forall2 (λ k v, v = 0 ↔ (k ∉ selected ∨ k = first))
              (Particle.links p) (Particle.links q).
Proof.
  rewrite selectFromAncestor_spec. intros Hrun.
  destruct (select fuel inputEvent ancestor ∅) as [S| | |] eqn:ES; cbn in Hrun;
    [|discriminate|discriminate|discriminate].
  destruct (mapM _ _) as [ps|] eqn:Eps; [|discriminate]. injection Hrun as <-.
  apply mapM_Some in Eps. change (Event_size []) with 0. cbn [app].
  assert (Ha : ancestor ∈ set_iter S).
  { apply set_iter_elem.
    by apply (select_extends fuel inputEvent ancestor ∅ S), elem_of_union_l, elem_of_singleton. }
  destruct (set_iter S) as [|first sel] eqn:Esel; [by apply elem_of_nil in Ha|].
  rewrite <- Esel in Eps.
  exists S, first. split; [done|]. split; [by rewrite Esel|].
  intros n i Hn.
  destruct (Forall2_lookup_l _ _ _ _ _ Eps Hn) as (p & Hp & Hat).
  exists p, (remap (out_index S 0) p).
  split; [done|]. split; [by rewrite list_lookup_fmap, Hp|].
  rewrite remap_links. apply Forall2_fmap_r, Forall_Forall2_diag, Forall_forall.
  intros k _. unfold compose. destruct (decide (k ∈ S)) as [Hk|Hk].
  - apply set_iter_elem, list_elem_of_lookup in Hk as [n' Hn'].
    rewrite (out_index_selected _ _ n') by done. split.
    + intros Hz. right. assert (n' = 0%nat) as -> by lia.
      rewrite Esel in Hn'. by injection Hn' as ->.
    + intros [Hout| ->].
      * exfalso. apply Hout, set_iter_elem, list_elem_of_lookup. by exists n'.
      * assert (n' = 0%nat) as ->; [|done].
        eapply NoDup_lookup; [apply set_iter_NoDup|exact Hn'|by rewrite Esel].
  - rewrite out_index_unselected by done. split; [by left|done].
Qed.

(** [decayEvent] extracted from entry 1 into an empty event: the links of
    entries 2 and 3 to their mother, entry 1, are stored as 0, like the
    link of entry 1 to the system. *)
Lemma selectFromAncestor_empty_output_witness :
  ∃ (selected : gset Z) (first : Z),
    select (H := pythia83) 6 decayEvent 1 ∅ = Ok selected
    ∧ set_iter selected !! 0%nat = Some first
    ∧ ∀ (n : nat) (i : Z),
        set_iter selected !! n = Some i →
        ∃ p q : Particle.t,
          Event_at (Pythia.event decayPythia) i = Some p
          ∧ [particle 443 (-22) 0 0 1 2; particle 13 (-23) 0 0 3 0;
             particle (-13) (-23) 0 0 3 0; particle 22 1 1 2 0 0] !! n = Some q
          ∧ Forall2 (λ k v, v = 0 ↔ (k ∉ selected ∨ k = first))
              (Particle.links p) (Particle.links q).
Proof.
  apply (selectFromAncestor_empty_output (H := pythia83) 6 decayPythia 1 decayEvent).
  vm_compute. reflexivity.
Defined.

(** ** importParticles: what is kept and what is copied *)

(** [importParticles] always succeeds, keeps the particles that the list
    already holds in front of the new ones, and adds nothing for an event
    that is empty or holds the system entry only. *)
Theorem importParticles_keeps_list `{PythiaLib} (enc : Z → Z → Z) (event : Event)
    (mParticles : list TParticle.t) :
  ∃ new : list TParticle.t,
    importParticles enc event mParticles = Ok (true, mParticles ++ new)
    ∧ length new = (length event - 1)%nat
    ∧ ((length event ≤ 1)%nat →
       importParticles enc event mParticles = Ok (true, mParticles)).
Proof.
  exists (importParticle enc <$> drop 1 event).
  split; [apply importParticles_spec|]. split.
  - by rewrite length_fmap, length_drop.
  - intros Hlen. rewrite importParticles_spec.
    destruct event as [|sys [|p l]]; cbn in *; [by rewrite app_nil_r..|lia].
Qed.

(** Each imported particle carries the code, the four-momentum and the
    production vertex of its entry, the status encoded from the HepMC and
    generator statuses, and has the bit [kToBeDone] set exactly when the
    HepMC status of the entry is 1. *)
Theorem importParticles_copies `{PythiaLib} (enc : Z → Z → Z) (event : Event)
    (mParticles : list TParticle.t) (k : Z) (p : Particle.t) :
  1 ≤ k → Event_at event k = Some p →
  ∃ (new : list TParticle.t) (tp : TParticle.t),
    importParticles enc event mParticles = Ok (true, mParticles ++ new)
    ∧ new !! Z.to_nat (k - 1) = Some tp
    ∧ TParticle.fPdgCode tp = Particle.id p
    ∧ TParticle.fStatusCode tp = enc (statusHepMC p) (Particle.status p)
    ∧ (TParticle.kToBeDone tp = true ↔ statusHepMC p = 1)
    ∧ (TParticle.fPx tp, TParticle.fPy tp, TParticle.fPz tp, TParticle.fE tp)
      = (Particle.px p, Particle.py p, Particle.pz p, Particle.e p)
    ∧ (TParticle.fVx tp, TParticle.fVy tp, TParticle.fVz tp, TParticle.fVt tp)
      = (Particle.xProd p, Particle.yProd p, Particle.zProd p, Particle.tProd p).
Proof.
  intros Hk [_ Hp]%Event_at_Some.
  exists (importParticle enc <$> drop 1 event), (importParticle enc p).
  split; [apply importParticles_spec|]. split.
  - rewrite list_lookup_fmap, lookup_drop.
    replace (1 + Z.to_nat (k - 1))%nat with (Z.to_nat k) by lia. by rewrite Hp.
  - cbn. repeat split; try done; apply bool_decide_eq_true.
Qed.

Lemma importParticles_copies_witness :
  ∃ (new : list TParticle.t) (tp : TParticle.t),
    importParticles (H := pythia83) (λ hepmc gen, 1000 * hepmc + gen)
      decayEvent [] = Ok (true, [] ++ new)
    ∧ new !! Z.to_nat (4 - 1) = Some tp
    ∧ TParticle.fPdgCode tp = 22
    ∧ TParticle.fStatusCode tp = 1001
    ∧ (TParticle.kToBeDone tp = true ↔ 1 = 1)
    ∧ (TParticle.fPx tp, TParticle.fPy tp, TParticle.fPz tp, TParticle.fE tp)
      = (0%float, 0%float, 0%float, 0%float)
    ∧ (TParticle.fVx tp, TParticle.fVy tp, TParticle.fVz tp, TParticle.fVt tp)
      = (0%float, 0%float, 0%float, 0%float).
Proof.
  apply (importParticles_copies (H := pythia83) (λ hepmc gen, 1000 * hepmc + gen)
           decayEvent [] 4 (particle 22 1 2 3 0 0)); [lia|reflexivity].
Defined.

(** ** generateEvent: the state it returns *)

(** When [next()] fails, or with a Pythia of version 8.3 or later,
    [generateEvent] returns the verdict and the state of [next()] as they
    are: [moreDecays()] is not consulted and the event is not touched. *)
Theorem generateEvent_is_next `{PythiaLib} (mPythia : Pythia.t) :
  (next mPythia).1 = false ∨ 8300 ≤ PYTHIA_VERSION_INTEGER →
  generateEvent mPythia = next mPythia.
Proof.
  unfold generateEvent. destruct (next mPythia) as [ok py]; cbn.
  intros [->|Hv]; [done|]. destruct ok; cbn; [|done].
  by rewrite decide_False by lia.
Qed.

Lemma generateEvent_is_next_witness :
  generateEvent (H := pythia83) decayPythia = next (PythiaLib := pythia83) decayPythia.
Proof.
  apply (generateEvent_is_next (H := pythia83) decayPythia).
  right. vm_compute. discriminate.
Defined.

(** With a Pythia older than 8.3 and a successful [next()], the verdict and
    the state returned are those of [moreDecays()], which is run on the
    state left by [next()] with the production vertex of every entry of
    the event set to (0, 0, 0, 0) and nothing else changed. *)
Theorem generateEvent_forces_vertices `{PythiaLib} (mPythia : Pythia.t) :
  PYTHIA_VERSION_INTEGER < 8300 → (next mPythia).1 = true →
  ∃ forced : Pythia.t,
    generateEvent mPythia = moreDecays forced
    ∧ Pythia.info forced = Pythia.info (next mPythia).2
    ∧ Pythia.internal forced = Pythia.internal (next mPythia).2
    ∧ Forall2
        (λ p q,
           (Particle.xProd q, Particle.yProd q, Particle.zProd q, Particle.tProd q)
           = (0%float, 0%float, 0%float, 0%float)
           ∧ (Particle.id q, Particle.status q, Particle.links q)
             = (Particle.id p, Particle.status p, Particle.links p)
           ∧ (Particle.px q, Particle.py q, Particle.pz q, Particle.e q)
             = (Particle.px p, Particle.py p, Particle.pz p, Particle.e p))
        (Pythia.event (next mPythia).2) (Pythia.event forced).
Proof.
  intros Hv Hok. unfold generateEvent.
  destruct (next mPythia) as [ok py]; cbn in *. subst ok. cbn.
  rewrite decide_True by done.
  exists (Pythia.set_event (Particle.resetProd <$> Pythia.event py) py). split.
  - destruct (moreDecays _) as [ok2 py2]. by destruct ok2.
  - split; [done|]. split; [done|]. cbn.
    apply Forall2_fmap_r, Forall_Forall2_diag, Forall_forall. by intros p _.
Qed.

Lemma generateEvent_forces_vertices_witness :
  ∃ forced : Pythia.t,
    generateEvent (H := pythia82) displacedPythia = moreDecays (PythiaLib := pythia82) forced
    ∧ Pythia.info forced = Pythia.info (next (PythiaLib := pythia82) displacedPythia).2
    ∧ Pythia.internal forced
      = Pythia.internal (next (PythiaLib := pythia82) displacedPythia).2
    ∧ Forall2
        (λ p q,
           (Particle.xProd q, Particle.yProd q, Particle.zProd q, Particle.tProd q)
           = (0%float, 0%float, 0%float, 0%float)
           ∧ (Particle.id q, Particle.status q, Particle.links q)
             = (Particle.id p, Particle.status p, Particle.links p)
           ∧ (Particle.px q, Particle.py q, Particle.pz q, Particle.e q)
             = (Particle.px p, Particle.py p, Particle.pz p, Particle.e p))
        (Pythia.event (next (PythiaLib := pythia82) displacedPythia).2)
        (Pythia.event forced).
Proof.
  apply (generateEvent_forces_vertices (H := pythia82) displacedPythia);
    vm_compute; reflexivity.
Defined.

(** ** getNcoll and getNpart: order, bounds and relations *)

(** The counters of [getNpart] in closed form. *)
Lemma getNpart_closed (info : Info.t) (hi : HIInfo.t) (out : Counts) :
  Info.hiInfo info = Some hi →
  getNpart info out
  = mkCounts
      (Z.of_nat (size (participants hi 2212 (SubCollision.proj <$> HIInfo.subCollisions hi))))
      (Z.of_nat (size (participants hi 2112 (SubCollision.proj <$> HIInfo.subCollisions hi))))
      (Z.of_nat (size (participants hi 2212 (SubCollision.targ <$> HIInfo.subCollisions hi))))
      (Z.of_nat (size (participants hi 2112 (SubCollision.targ <$> HIInfo.subCollisions hi)))).
Proof.
  intros Hhi. unfold getNpart. rewrite Hhi.
  destruct (getNpart_loop_inv hi (HIInfo.subCollisions hi))
    as [Np Nt Ep Et Cpp Cnp Cpt Cnt].
  unfold getNpart_loop in *.
  destruct (counts _) as [a b c d]. cbn in *. subst a b c d.
  f_equal; by apply count_participants.
Qed.

Lemma participants_Permutation (hi : HIInfo.t) (code : Z) (ns ns' : list NucleonPtr) :
  ns ≡ₚ ns' → participants hi code ns = participants hi code ns'.
Proof.
  intros Hperm. unfold participants. apply set_eq. intros x.
  by rewrite !elem_of_list_to_set, Hperm.
Qed.

(** [getNcoll] and [getNpart] do not depend on the order in which the
    sub-collisions are listed. *)
Theorem counters_order_independent (hi : HIInfo.t) (scs' : list SubCollision.t)
    (nColl : Z) (out : Counts) :
  HIInfo.subCollisions hi ≡ₚ scs' →
  let info := Info.mk (Some hi) in
  let info' := Info.mk (Some (HIInfo.mk (HIInfo.b hi) scs' (HIInfo.nucleon hi))) in
  getNcoll info nColl = getNcoll info' nColl
  ∧ getNpart info out = getNpart info' out.
Proof.
  intros Hperm. cbv zeta. split.
  - unfold getNcoll. cbn [Info.hiInfo HIInfo.subCollisions].
    rewrite (getNcoll_fold hi), (getNcoll_fold (HIInfo.mk _ _ _)).
    change (both_absorbed (HIInfo.mk (HIInfo.b hi) scs' (HIInfo.nucleon hi)))
      with (both_absorbed hi).
    by rewrite Hperm.
  - rewrite (getNpart_closed _ hi) by done.
    rewrite (getNpart_closed _ (HIInfo.mk (HIInfo.b hi) scs' (HIInfo.nucleon hi))) by done.
    cbn [HIInfo.subCollisions].
    change (participants (HIInfo.mk (HIInfo.b hi) scs' (HIInfo.nucleon hi)))
      with (participants hi).
    by rewrite !(participants_Permutation hi _ (_ <$> HIInfo.subCollisions hi) (_ <$> scs'))
      by (by apply fmap_Permutation).
Qed.

Lemma counters_order_independent_witness :
  let info := Info.mk (Some (HIInfo.mk 0%float
                [SubCollision.mk 1 11; SubCollision.mk 3 12; SubCollision.mk 1 12] nucleons)) in
  let info' := Info.mk (Some (HIInfo.mk 0%float
                [SubCollision.mk 1 12; SubCollision.mk 1 11; SubCollision.mk 3 12] nucleons)) in
  getNcoll info 0 = getNcoll info' 0
  ∧ getNpart info zeroCounts = getNpart info' zeroCounts.
Proof.
  apply (counters_order_independent
           (HIInfo.mk 0%float
              [SubCollision.mk 1 11; SubCollision.mk 3 12; SubCollision.mk 1 12] nucleons)
           [SubCollision.mk 1 12; SubCollision.mk 1 11; SubCollision.mk 3 12] 0 zeroCounts).
  cbn. etrans; [apply perm_skip, Permutation_swap|apply Permutation_swap].
Defined.

(** Two disjoint selections of a list select no more than its length. *)
Lemma length_filter_two (P Q : NucleonPtr → Prop)
    `{∀ n, Decision (P n)} `{∀ n, Decision (Q n)} (l : list NucleonPtr) :
  (∀ n, P n → Q n → False) →
  (length (filter P l) + length (filter Q l) ≤ length l)%nat.
Proof.
  intros Hdisj. induction l as [|x l IH]; [done|].
  rewrite !filter_cons. destruct (decide (P x)), (decide (Q x)); cbn [length];
    [by destruct (Hdisj x)|lia..].
Qed.

(** A duplicate-free vector of nucleons met on one side of the
    sub-collisions is no longer than their list. *)
Lemma wounded_vector_length {A : Type} (f : A → NucleonPtr) (W : list NucleonPtr)
    (l : list A) (Q : NucleonPtr → Prop) :
  NoDup W → (∀ n, n ∈ W ↔ n ∈ f <$> l ∧ Q n) → (length W ≤ length l)%nat.
Proof.
  intros Hnd Hel. rewrite <- (length_fmap f l).
  apply submseteq_length, NoDup_submseteq; [done|]. intros n Hn. by apply Hel.
Qed.

(** [getNcoll] lies between zero and the number of sub-collisions; the
    counters of [getNpart] are not negative, and the protons and neutrons
    counted on one side are together no more than the sub-collisions. *)
Theorem counters_bounded (info : Info.t) (hi : HIInfo.t) (nColl : Z) (out : Counts) :
  Info.hiInfo info = Some hi →
  let m := Z.of_nat (length (HIInfo.subCollisions hi)) in
  let c := getNpart info out in
  0 ≤ getNcoll info nColl ≤ m
  ∧ 0 ≤ nProtonProj c ∧ 0 ≤ nNeutronProj c ∧ 0 ≤ nProtonTarg c ∧ 0 ≤ nNeutronTarg c
  ∧ nProtonProj c + nNeutronProj c ≤ m
  ∧ nProtonTarg c + nNeutronTarg c ≤ m.
Proof.
  intros Hhi. cbv zeta. split.
  - unfold getNcoll. rewrite Hhi, getNcoll_fold.
    pose proof (length_filter (both_absorbed hi) (HIInfo.subCollisions hi)). lia.
  - unfold getNpart. rewrite Hhi.
    destruct (getNpart_loop_inv hi (HIInfo.subCollisions hi))
      as [Np Nt Ep Et Cpp Cnp Cpt Cnt].
    unfold getNpart_loop in *. rewrite Cpp, Cnp, Cpt, Cnt.
    pose proof (wounded_vector_length _ _ _ _ Np Ep).
    pose proof (wounded_vector_length _ _ _ _ Nt Et).
    match goal with |- context [projW ?st] => set (s := st) in * end.
    pose proof (length_filter_two
                  (λ n, Nucleon.id (HIInfo.nucleon hi n) = 2212)
                  (λ n, Nucleon.id (HIInfo.nucleon hi n) = 2112) (projW s)
                  ltac:(intros n E1 E2; cbn in *; congruence)).
    pose proof (length_filter_two
                  (λ n, Nucleon.id (HIInfo.nucleon hi n) = 2212)
                  (λ n, Nucleon.id (HIInfo.nucleon hi n) = 2112) (targW s)
                  ltac:(intros n E1 E2; cbn in *; congruence)).
    lia.
Qed.

Lemma counters_bounded_witness :
  let m := Z.of_nat (length [SubCollision.mk 1 11; SubCollision.mk 1 12]) in
  let c := getNpart (heavyIon [SubCollision.mk 1 11; SubCollision.mk 1 12]) zeroCounts in
  0 ≤ getNcoll (heavyIon [SubCollision.mk 1 11; SubCollision.mk 1 12]) 0 ≤ m
  ∧ 0 ≤ nProtonProj c ∧ 0 ≤ nNeutronProj c ∧ 0 ≤ nProtonTarg c ∧ 0 ≤ nNeutronTarg c
  ∧ nProtonProj c + nNeutronProj c ≤ m
  ∧ nProtonTarg c + nNeutronTarg c ≤ m.
Proof.
  apply (counters_bounded (heavyIon [SubCollision.mk 1 11; SubCollision.mk 1 12])
           (HIInfo.mk 0%float [SubCollision.mk 1 11; SubCollision.mk 1 12] nucleons)
           0 zeroCounts).
  reflexivity.
Defined.

(** [getNpart(info, nPart)] returns the number of distinct participants
    of both species on both sides, whatever its uninitialised locals and
    [nPart] held before, and zero without heavy-ion information. *)
Theorem getNpart_nPart_total (info : Info.t) (locals : Counts) (nPart : Z) :
  getNpart_nPart info locals nPart
  = match Info.hiInfo info with
    | None => 0
    | Some hi =>
        let ps := SubCollision.proj <$> HIInfo.subCollisions hi in
        let ts := SubCollision.targ <$> HIInfo.subCollisions hi in
        Z.of_nat (size (participants hi 2212 ps) + size (participants hi 2112 ps)
                  + size (participants hi 2212 ts) + size (participants hi 2112 ts))
    end.
Proof.
  unfold getNpart_nPart. destruct (Info.hiInfo info) as [hi|] eqn:Hhi.
  - rewrite (getNpart_closed info hi) by done. cbn. lia.
  - unfold getNpart. by rewrite Hhi.
Qed.

Lemma length_filter_cover (P Q : NucleonPtr → Prop)
    `{∀ n, Decision (P n)} `{∀ n, Decision (Q n)} (l : list NucleonPtr) :
  (∀ n, P n → Q n → False) → (∀ n, n ∈ l → P n ∨ Q n) →
  length l = (length (filter P l) + length (filter Q l))%nat.
Proof.
  intros Hdisj Hcover. induction l as [|x l IH]; [done|].
  rewrite !filter_cons. cbn [length]. rewrite IH.
  - destruct (decide (P x)) as [HP|HP], (decide (Q x)) as [HQ|HQ]; cbn [length].
    + by destruct (Hdisj x).
    + lia.
    + lia.
    + destruct (Hcover x (list_elem_of_here _ _)); tauto.
  - intros n Hn. by apply Hcover, list_elem_of_further.
Qed.

Lemma sub_collision_pair_inj (sc1 sc2 : SubCollision.t) :
  (SubCollision.proj sc1, SubCollision.targ sc1)
  = (SubCollision.proj sc2, SubCollision.targ sc2) → sc1 = sc2.
Proof. destruct sc1, sc2. cbn. by intros [= -> ->]. Qed.

Lemma ABS_wounded (hi : HIInfo.t) (n : NucleonPtr) :
  Nucleon.status (HIInfo.nucleon hi n) = Nucleon.ABS → wounded hi n = true.
Proof. intros E. unfold wounded. by rewrite E. Qed.

(** When every nucleon of the sub-collisions is a proton or a neutron: a
    binary collision implies a participant on each side, and, the
    sub-collisions pairing each projectile and target nucleon at most once,
    the number of binary collisions is at most the product of the numbers
    of participants of the two sides. *)
Theorem collisions_and_participants (info : Info.t) (hi : HIInfo.t)
    (nColl : Z) (out : Counts) :
  Info.hiInfo info = Some hi →
  (∀ sc, sc ∈ HIInfo.subCollisions hi →
         (Nucleon.id (HIInfo.nucleon hi (SubCollision.proj sc)) = 2212
          ∨ Nucleon.id (HIInfo.nucleon hi (SubCollision.proj sc)) = 2112)
         ∧ (Nucleon.id (HIInfo.nucleon hi (SubCollision.targ sc)) = 2212
            ∨ Nucleon.id (HIInfo.nucleon hi (SubCollision.targ sc)) = 2112)) →
  let c := getNpart info out in
  let nProj := nProtonProj c + nNeutronProj c in
  let nTarg := nProtonTarg c + nNeutronTarg c in
  (1 ≤ getNcoll info nColl → 1 ≤ nProj ∧ 1 ≤ nTarg)
  ∧ (NoDup (HIInfo.subCollisions hi) → getNcoll info nColl ≤ nProj * nTarg).
Proof.
  intros Hhi Hspecies. cbv zeta.
  unfold getNcoll, getNpart. rewrite Hhi, getNcoll_fold.
  destruct (getNpart_loop_inv hi (HIInfo.subCollisions hi))
    as [Np Nt Ep Et Cpp Cnp Cpt Cnt].
  unfold getNpart_loop in *. rewrite Cpp, Cnp, Cpt, Cnt.
  match goal with |- context [projW ?st] => set (s := st) in * end.
  set (scs := HIInfo.subCollisions hi) in *.
  set (L := filter (both_absorbed hi) scs).
  assert (HL : ∀ sc, sc ∈ L →
            SubCollision.proj sc ∈ projW s ∧ SubCollision.targ sc ∈ targW s).
  { intros sc [[Hp Ht] Hsc]%list_elem_of_filter. split.
    - apply Ep. split; [by apply list_elem_of_fmap_2|by apply ABS_wounded].
    - apply Et. split; [by apply list_elem_of_fmap_2|by apply ABS_wounded]. }
  assert (Hpw : length (projW s)
                = (length (filter (λ n, Nucleon.id (HIInfo.nucleon hi n) = 2212%Z) (projW s))
                   + length (filter (λ n, Nucleon.id (HIInfo.nucleon hi n) = 2112%Z) (projW s)))%nat).
  { apply length_filter_cover; [intros n E1 E2; cbn in *; congruence|].
    intros n [(sc & -> & Hsc)%list_elem_of_fmap _]%Ep. by apply Hspecies. }
  assert (Htw : length (targW s)
                = (length (filter (λ n, Nucleon.id (HIInfo.nucleon hi n) = 2212%Z) (targW s))
                   + length (filter (λ n, Nucleon.id (HIInfo.nucleon hi n) = 2112%Z) (targW s)))%nat).
  { apply length_filter_cover; [intros n E1 E2; cbn in *; congruence|].
    intros n [(sc & -> & Hsc)%list_elem_of_fmap _]%Et. by apply Hspecies. }
  split.
  - intros Hone. destruct L as [|sc L'] eqn:EL; [cbn in Hone; lia|].
    destruct (HL sc (list_elem_of_here _ _)) as [Hp Ht].
    apply list_elem_of_lookup in Hp as [i Hi]. apply lookup_lt_Some in Hi.
    apply list_elem_of_lookup in Ht as [j Hj]. apply lookup_lt_Some in Hj.
    lia.
  - intros Hnd.
    set (pair := λ sc, (SubCollision.proj sc, SubCollision.targ sc)).
    assert (Hpairs : NoDup (pair <$> L)).
    { apply NoDup_fmap_2_strong; [|by apply NoDup_filter].
      intros sc1 sc2 _ _. apply sub_collision_pair_inj. }
    assert (Hsub : pair <$> L ⊆+ list_prod (projW s) (targW s)).
    { apply NoDup_submseteq; [done|].
      intros [p t] (sc & [= -> ->] & Hsc)%list_elem_of_fmap.
      apply list_elem_of_In, in_prod; apply list_elem_of_In; by apply HL. }
    apply submseteq_length in Hsub. rewrite length_fmap, length_prod in Hsub.
    nia.
Qed.

Lemma collisions_and_participants_witness :
  let info := heavyIon [SubCollision.mk 1 11; SubCollision.mk 1 12; SubCollision.mk 3 12] in
  let c := getNpart info zeroCounts in
  let nProj := nProtonProj c + nNeutronProj c in
  let nTarg := nProtonTarg c + nNeutronTarg c in
  (1 ≤ getNcoll info 0 → 1 ≤ nProj ∧ 1 ≤ nTarg)
  ∧ (NoDup [SubCollision.mk 1 11; SubCollision.mk 1 12; SubCollision.mk 3 12] →
     getNcoll info 0 ≤ nProj * nTarg).
Proof.
  apply (collisions_and_participants
           (heavyIon [SubCollision.mk 1 11; SubCollision.mk 1 12; SubCollision.mk 3 12])
           (HIInfo.mk 0%float
              [SubCollision.mk 1 11; SubCollision.mk 1 12; SubCollision.mk 3 12] nucleons)
           0 zeroCounts); [reflexivity|].
  intros sc Hsc. apply list_elem_of_In in Hsc. cbn in Hsc.
  destruct Hsc as [<-|[<-|[<-|[]]]]; cbv; auto.
Defined.

(** ** getNremn: the warning, the particles that matter, the ranges *)

Lemma getNremn_body_cases (p : Particle.t) (st : NremnState) :
  (¬ is_remnant p ∧ getNremn_body p st = st)
  ∨ (is_remnant p ∧ st_nNucRem (getNremn_body p st) = st_nNucRem st + 1).
Proof.
  unfold getNremn_body, is_remnant.
  destruct (decide (Particle.id p < 1000000000)); [left; split; [lia|done]|].
  destruct (decide (Z.rem (Particle.id p) 10 ≠ 9)); [left; split; [tauto|done]|].
  right. split; [|done]. split; [lia|].
  by destruct (decide (Z.rem (Particle.id p) 10 = 9)).
Qed.

Lemma getNremn_fold_count (l : Event) (st : NremnState) :
  st_nNucRem (fold_left (λ st p, getNremn_body p st) l st)
  = st_nNucRem st + Z.of_nat (length (filter is_remnant l)).
Proof.
  revert st. induction l as [|p l IH]; intros st; cbn [fold_left].
  - cbn. lia.
  - rewrite IH, filter_cons.
    destruct (getNremn_body_cases p st) as [[Hn ->]|[Hr ->]].
    + by rewrite decide_False.
    + rewrite decide_True by done. cbn [length]. lia.
Qed.

(** [getNremn] logs its warning exactly when the event holds more than two
    nuclear remnants, whatever their sides. *)
Theorem getNremn_warning (event : Event) (out : Counts) :
  ∃ c : Counts,
    getNremn event out
    = Ok (c, bool_decide (2 < length (filter is_remnant event))%nat).
Proof.
  exists (st_counts (getNremn_loop event)). rewrite getNremn_fold. do 2 f_equal.
  unfold getNremn_loop. rewrite getNremn_fold_count. cbn [st_nNucRem].
  apply bool_decide_ext. lia.
Qed.

(** On an event without nuclear remnants, whose codes are all below ten
    digits (negative codes among them) or do not end in 9, [getNremn]
    returns zeros and logs nothing. *)
Theorem getNremn_no_remnant (event : Event) (out : Counts) :
  Forall (λ p, Particle.id p < 1000000000 ∨ Z.rem (Particle.id p) 10 ≠ 9) event →
  getNremn event out = Ok (zeroCounts, false).
Proof.
  intros Hall. rewrite getNremn_fold. unfold getNremn_loop.
  assert (E : fold_left (λ st p, getNremn_body p st) event (mkNremnState zeroCounts 0)
              = mkNremnState zeroCounts 0).
  { generalize (mkNremnState zeroCounts 0).
    induction Hall as [|p l Hp _ IH]; intros st; [done|]. cbn [fold_left].
    destruct (getNremn_body_cases p st) as [[_ ->]|[[Hbig Hnine] _]]; [apply IH|].
    destruct Hp; [lia|done]. }
  by rewrite E.
Qed.

Lemma getNremn_no_remnant_witness :
  getNremn [remnant 2212 1%float; remnant (-1000822089) 1%float;
            remnant 1000822080 (-1)%float] (mkCounts 7 7 7 7)
  = Ok (zeroCounts, false).
Proof.
  apply (getNremn_no_remnant
           [remnant 2212 1%float; remnant (-1000822089) 1%float;
            remnant 1000822080 (-1)%float] (mkCounts 7 7 7 7)).
  constructor; [left; cbn; lia|]. constructor; [left; cbn; lia|].
  constructor; [right; intros E; vm_compute in E; discriminate|]. constructor.
Defined.

Lemma getNremn_body_unsided (p : Particle.t) (st : NremnState) :
  ¬ sided_remnant p → st_counts (getNremn_body p st) = st_counts st.
Proof.
  intros Hp. destruct (getNremn_body_cases p st) as [[_ ->]|[Hr _]]; [done|].
  unfold getNremn_body. destruct Hr as [Hbig Hnine].
  rewrite decide_False by lia. rewrite decide_False by (intros Hne; by apply Hne).
  destruct (PrimFloat.ltb 0 (Particle.pz p)) eqn:Hpos.
  { exfalso. apply Hp. split; [by split|by left]. }
  destruct (PrimFloat.ltb (Particle.pz p) 0) eqn:Hneg.
  { exfalso. apply Hp. split; [by split|by right]. }
  by destruct (st_counts st).
Qed.

Lemma getNremn_body_counts (p : Particle.t) (st1 st2 : NremnState) :
  st_counts st1 = st_counts st2 →
  st_counts (getNremn_body p st1) = st_counts (getNremn_body p st2).
Proof.
  intros E. unfold getNremn_body.
  destruct (decide (Particle.id p < 1000000000)); [done|].
  destruct (decide (Z.rem (Particle.id p) 10 ≠ 9)); [done|].
  cbn [st_counts]. by rewrite E.
Qed.

Lemma getNremn_fold_sided (l : Event) (st1 st2 : NremnState) :
  st_counts st1 = st_counts st2 →
  st_counts (fold_left (λ st p, getNremn_body p st) l st1)
  = st_counts (fold_left (λ st p, getNremn_body p st) (filter sided_remnant l) st2).
Proof.
  revert st1 st2. induction l as [|p l IH]; intros st1 st2 E; [done|].
  rewrite filter_cons. destruct (decide (sided_remnant p)) as [Hp|Hp]; cbn [fold_left].
  - by apply IH, getNremn_body_counts.
  - apply IH. by rewrite getNremn_body_unsided.
Qed.

(** The counts of [getNremn] depend only on the remnants whose longitudinal
    momentum is positive or negative: the other particles, and the remnants
    whose momentum along the beam is zero or not a number, can be removed
    from the event without changing them.  (Such remnants still count for
    the warning.) *)
Theorem getNremn_sided_only (event : Event) (out : Counts) :
  ∃ (c : Counts) (w w' : bool),
    getNremn event out = Ok (c, w)
    ∧ getNremn (filter sided_remnant event) out = Ok (c, w').
Proof.
  eexists _, _, _. split; [apply getNremn_fold|].
  rewrite getNremn_fold. do 2 f_equal. unfold getNremn_loop.
  symmetry. by apply getNremn_fold_sided.
Qed.

Lemma getNremn_body_range (p : Particle.t) (st : NremnState) :
  counts_in_range (st_counts st) → counts_in_range (st_counts (getNremn_body p st)).
Proof.
  intros [Hpp Hnp Hpt Hnt]. unfold getNremn_body.
  destruct (decide (Particle.id p < 1000000000)); [done|].
  destruct (decide (Z.rem (Particle.id p) 10 ≠ 9)); [done|].
  assert (H1 : 0 ≤ Z.quot (Particle.id p) 10) by (apply Z.quot_pos; lia).
  assert (H2 : 0 ≤ Z.quot (Z.quot (Particle.id p) 10) 1000) by (apply Z.quot_pos; lia).
  pose proof (Z.rem_bound_pos (Z.quot (Particle.id p) 10) 1000 H1 ltac:(lia)).
  pose proof (Z.rem_bound_pos (Z.quot (Z.quot (Particle.id p) 10) 1000) 1000 H2 ltac:(lia)).
  cbn [st_counts].
  destruct (PrimFloat.ltb 0 (Particle.pz p)), (PrimFloat.ltb (Particle.pz p) 0);
    constructor; cbn; lia.
Qed.

(** Whatever the event, the proton counts returned by [getNremn] lie in
    [0, 999] and the neutron counts in [-999, 999]: a code whose charge
    digits exceed its mass digits yields a negative number of neutrons. *)
Theorem getNremn_ranges (event : Event) (out : Counts) :
  ∃ (c : Counts) (w : bool),
    getNremn event out = Ok (c, w)
    ∧ 0 ≤ nProtonProj c ≤ 999 ∧ -999 ≤ nNeutronProj c ≤ 999
    ∧ 0 ≤ nProtonTarg c ≤ 999 ∧ -999 ≤ nNeutronTarg c ≤ 999.
Proof.
  eexists _, _. split; [apply getNremn_fold|].
  assert (Hr : counts_in_range (st_counts (getNremn_loop event))).
  { unfold getNremn_loop.
    assert (H0 : counts_in_range (st_counts (mkNremnState zeroCounts 0)))
      by (constructor; cbn; lia).
    revert H0. generalize (mkNremnState zeroCounts 0).
    induction event as [|p l IH]; intros st Hst; [done|].
    cbn [fold_left]. by apply IH, getNremn_body_range. }
  by destruct Hr.
Qed.

(** ** getNfreeSpec: the draws and the counts *)

(** The two tests applied to one slot of a two-element array. *)
Lemma clamp_two_slots (v : Z) (neg : bool) (hi : Z) (a b : Z) (i : nat) :
  0 ≤ hi → (i < 2)%nat →
  let l1 := <[i := v]> [a; b] in
  let l2 := if neg || bool_decide (l1 !!! i < 0) then <[i := 0]> l1 else l1 in
  let l3 := if decide (l2 !!! i > hi) then <[i := hi]> l2 else l2 in
  l3 = <[i := if neg then 0 else clamp hi v]> [a; b].
Proof.
  intros Hhi Hi. unfold clamp.
  destruct i as [|[|i]]; [| |lia]; cbn; destruct neg; cbn;
    repeat (case_bool_decide || case_decide); cbn in *;
    try (exfalso; lia); repeat f_equal; lia.
Qed.

(** [getNfreeSpec] in closed form.  With heavy-ion information it makes four
    Gaussian draws, one after the other on the same generator: projectile
    neutrons, target neutrons, projectile protons, target protons.  Each
    count is 0 when the mean is negative, and otherwise the draw converted
    to [int] and brought into [0, 126] or [0, 82].  The width of the proton
    draws is computed, like that of the neutron draws, from the function
    returned by [getsigmaNeutrons]. *)
Theorem getNfreeSpec_draws `{RootLib} (info : Info.t) (hi : HIInfo.t)
    (spec : FreeSpec) (gRandom : TRandom) :
  Info.hiInfo info = Some hi →
  let b := HIInfo.b hi in
  let nave := to_float (Eval getfNeutrons b) in
  let pave := to_float (Eval getfProtons b) in
  let sigma := to_float (Eval getsigmaNeutrons b) in
  let d1 := Gaus gRandom nave (0.68 * sigma * nave)%float in
  let d2 := Gaus d1.2 nave (0.68 * sigma * nave)%float in
  let d3 := Gaus d2.2 pave (0.68 * sigma * pave)%float in
  let d4 := Gaus d3.2 pave (0.68 * sigma * pave)%float in
  let neutrons x :=
    if PrimFloat.ltb nave 0%float then 0 else clamp 126 (to_int (to_float x)) in
  let protons x :=
    if PrimFloat.ltb pave 0%float then 0
    else clamp 82 (to_int (to_float (x / 0.7)%float)) in
  getNfreeSpec info spec gRandom
  = (mkFreeSpec (neutrons d1.1) (protons d3.1) (neutrons d2.1) (protons d4.1), d4.2).
Proof.
  intros Hhi. cbv zeta. unfold getNfreeSpec. rewrite Hhi. cbn [fold_left].
  unfold freeNeutrons at 2.
  destruct (Gaus gRandom _ _) as [x1 g1]. cbn [fst snd].
  rewrite (clamp_two_slots _ _ 126 0 0 0) by lia.
  change (<[0%nat := ?n]> [0; 0]) with [n; 0].
  unfold freeNeutrons.
  destruct (Gaus g1 _ _) as [x2 g2]. cbn [fst snd].
  rewrite (clamp_two_slots _ _ 126 _ 0 1) by lia.
  unfold freeProtons at 2.
  destruct (Gaus g2 _ _) as [x3 g3]. cbn [fst snd].
  rewrite (clamp_two_slots _ _ 82 0 0 0) by lia.
  change (<[0%nat := ?n]> [0; 0]) with [n; 0].
  unfold freeProtons.
  destruct (Gaus g3 _ _) as [x4 g4]. cbn [fst snd].
  rewrite (clamp_two_slots _ _ 82 _ 0 1) by lia.
  reflexivity.
Qed.

Lemma getNfreeSpec_draws_witness :
  getNfreeSpec (H := linearRoot) (heavyIon []) (mkFreeSpec 0 0 0 0) 0
  = (mkFreeSpec 62 53 62 53, 4).
Proof.
  pose proof (getNfreeSpec_draws (H := linearRoot) (heavyIon [])
                (HIInfo.mk 0%float [] nucleons) (mkFreeSpec 0 0 0 0) 0 eq_refl) as W.
  vm_compute in W. vm_compute. exact W.
Defined.

(** ** Init: configuration files, hooks and initialisation *)

Lemma string_app_cons (x : ascii) (a b : string) :
  (String x a ++ b)%string = String x (a ++ b)%string.
Proof. reflexivity. Qed.

Lemma string_app_assoc (a b c : string) : ((a ++ b) ++ c = a ++ (b ++ c))%string.
Proof.
  induction a as [|x a IH]; [done|]. rewrite !string_app_cons. by f_equal.
Qed.

Lemma string_app_nil_r (a : string) : (a ++ "")%string = a.
Proof. induction a as [|x a IH]; [done|]. rewrite string_app_cons. by f_equal. Qed.

Lemma no_space_app (a b : string) :
  no_space a → no_space b → no_space (a ++ b)%string.
Proof.
  induction a as [|x a IH]; [done|]. rewrite string_app_cons. cbn [no_space].
  intros [? ?] ?. split; auto.
Qed.

Lemma string_concat_cons (sep f : string) (fs : list string) :
  String.concat sep (f :: fs)
  = match fs with
    | [] => f
    | _ :: _ => (f ++ sep ++ String.concat sep fs)%string
    end.
Proof. by destruct fs. Qed.

(** The pieces read from [mConfig] contain no space, and [mConfig] is these
    pieces joined by single spaces, with one more space at the end when the
    last piece is closed by a space. *)
Lemma config_files_join (piece s : string) :
  no_space piece →
  let files := config_files piece s in
  Forall no_space files
  ∧ (((piece ++ s)%string = String.concat " " files ∧ last files ≠ Some ""%string)
     ∨ (piece ++ s)%string = (String.concat " " files ++ " ")%string).
Proof.
  revert piece. induction s as [|c s IH]; intros piece Hpiece; cbn zeta.
  - cbn [config_files]. rewrite string_app_nil_r. case_decide as Hp.
    + subst piece. split; [constructor|]. by left.
    + split; [by repeat constructor|]. left. split; [done|]. cbn. congruence.
  - cbn [config_files]. destruct (Ascii.eqb_spec c " ") as [->|Hc].
    + destruct (IH ""%string I) as [Hall Hjoin].
      change ("" ++ s)%string with s in Hjoin.
      split; [by constructor|].
      destruct (config_files "" s) as [|f fs] eqn:Efs.
      * right. destruct Hjoin as [[Hs _]|Hs]; cbn in Hs; subst s; [done|].
        vm_compute in Efs. discriminate.
      * rewrite string_concat_cons.
        destruct Hjoin as [[-> Hlast] | ->].
        -- left. split; [done|]. by destruct fs.
        -- right. by rewrite !string_app_assoc.
    + specialize (IH (piece ++ String c "")%string).
      rewrite string_app_assoc in IH. apply IH.
      apply no_space_app; [done|]. by split.
Qed.

Lemma read_until_rest (s : string) (token : string) (rest : stream) :
  read_until " " s = (token, rest) →
  match rest with
  | Some s' => (String.length s' < String.length s)%nat
  | None => True
  end
  ∧ ∀ piece,
      config_files piece s
      = match rest with
        | Some s' => (piece ++ token)%string :: config_files "" s'
        | None => if decide ((piece ++ token)%string = ""%string) then []
                  else [(piece ++ token)%string]
        end.
Proof.
  revert token rest. induction s as [|c s IH]; intros token rest; cbn [read_until].
  - intros [= <- <-]. split; [done|]. intros piece. cbn [config_files].
    by rewrite string_app_nil_r.
  - destruct (Ascii.eqb_spec c " ") as [->|Hc].
    + intros [= <- <-]. split; [cbn; lia|]. intros piece. cbn [config_files].
      rewrite Ascii.eqb_refl. by rewrite string_app_nil_r.
    + destruct (read_until " " s) as [t r] eqn:E. intros [= <- <-].
      destruct (IH t r eq_refl) as [Hlen Hfiles]. split.
      * destruct r; [cbn; lia|done].
      * intros piece. cbn [config_files].
        destruct (Ascii.eqb_spec c " "); [done|].
        rewrite Hfiles, string_app_assoc. done.
Qed.

Section InitProperties.

Context `{PythiaLib} `{InitLib}.

(** The configuration loop has fuel to spare and reads the pieces of the
    stream one after the other. *)
Lemma read_configuration_files (fuel : nat) (s : string) (g : Generator) :
  (String.length s < fuel)%nat →
  read_configuration fuel (Some s) g = read_files (config_files "" s) g.
Proof.
  revert s g. induction fuel as [|fuel IH]; intros s g Hfuel; [lia|].
  cbn [read_configuration]. destruct s as [|c s].
  - done.
  - cbn [getline].
    destruct (read_until " " (String c s)) as [token rest] eqn:E.
    destruct (read_until_rest _ _ _ E) as [Hlen Hfiles].
    rewrite (Hfiles ""%string). change ("" ++ token)%string with token.
    destruct rest as [s'|].
    + cbn [read_files]. destruct (readFile _ _ _) as [ok py].
      destruct ok; cbn [negb]; [|done]. apply IH. lia.
    + assert (token ≠ ""%string).
      { cbn [read_until] in E. destruct (Ascii.eqb c " "); [done|].
        destruct (read_until " " s). by injection E as <- _. }
      rewrite decide_False by done. cbn [read_files].
      destruct (readFile _ _ _) as [ok py]. destruct ok; cbn [negb]; [|done].
      destruct fuel; [cbn in Hfuel; lia|]. done.
Qed.

(** What [read_files] adds to the calls. *)
Lemma read_files_calls (files : list string) (g : Generator) :
  let r := read_files files g in
  mConfig r.1 = mConfig g ∧ mHooksFileName r.1 = mHooksFileName g
  ∧ mHooksFuncName r.1 = mHooksFuncName g
  ∧ ((r.2 = Ok true ∧ calls r.1 = calls g ++ reads files)
     ∨ (r.2 = after_fatal
        ∧ ∃ pre f post,
            files = pre ++ f :: post
            ∧ calls r.1
              = calls g ++ reads (pre ++ [f])
                ++ [LogFatal ("Failed to init 'Pythia8': problems with configuration file "
                              ++ ExpandPathName f)])).
Proof.
  revert g. induction files as [|f files IH]; intros g; cbn zeta.
  - cbn. do 3 (split; [done|]). left. by rewrite app_nil_r.
  - cbn [read_files]. destruct (readFile _ _ _) as [ok py]. destruct ok; cbn [negb].
    + specialize (IH (with_pythia py (called (ReadFile (ExpandPathName f)) g))).
      cbn zeta in IH. destruct IH as (-> & -> & -> & IH). do 3 (split; [done|]).
      destruct (read_files files _) as [g' r]; cbn [fst snd] in *.
      destruct IH as [[-> IH]|[-> (pre & f' & post & -> & IH)]].
      * left. split; [done|]. rewrite IH. cbn. by rewrite <- app_assoc.
      * right. split; [done|]. exists (f :: pre), f', post. split; [done|].
        rewrite IH. cbn. by rewrite <- !app_assoc.
    + cbn. do 3 (split; [done|]). right. split; [done|].
      exists [], f, files. split; [done|]. by rewrite <- !app_assoc.
Qed.

End InitProperties.

Section InitOutcomes.

Context `{PythiaLib} `{InitLib}.

(** [Init] never runs out of fuel: it is the configuration loop over the
    pieces of [mConfig], then the hooks, then the initialisation. *)
Lemma Init_unfold (g : Generator) :
  Init_run g
  = let '(g1, r) := read_files (config_files "" (mConfig g)) (called BaseInit g) in
    match r with
    | Ok true =>
        let '(g2, r) :=
          if decide (mHooksFileName g1 = ""%string) then (g1, Ok true)
          else
            let g1 := called (GetFromMacro (mHooksFileName g1) (mHooksFuncName g1)) g1 in
            match GetFromMacro_hooks (mHooksFileName g1) (mHooksFuncName g1) with
            | None =>
                fatal_return_false
                  "Failed to init 'Pythia8': problem with user hooks configuration " g1
            | Some hooks =>
                (with_pythia (setUserHooks hooks (mPythia g1)) (called SetUserHooks g1),
                 Ok true)
            end in
        match r with
        | Ok true =>
            let g3 :=
              if decide (PYTHIA_VERSION_INTEGER < 8300) then
                with_pythia (readString (mPythia g2) "HadronLevel:Decay off").2
                  (called (ReadString "HadronLevel:Decay off") g2)
              else g2 in
            let g4 := with_pythia (init (mPythia g3)).2 (called PythiaInit g3) in
            if negb (init (mPythia g3)).1 then
              fatal_return_false "Failed to init 'Pythia8': init returned with error" g4
            else (g4, Ok true)
        | _ => (g2, r)
        end
    | _ => (g1, r)
    end.
Proof.
  unfold Init_run.
  assert (E : (if decide (mConfig (called BaseInit g) = ""%string)
               then (called BaseInit g, Ok true)
               else read_configuration (S (String.length (mConfig (called BaseInit g))))
                      (Some (mConfig (called BaseInit g))) (called BaseInit g))
              = read_files (config_files "" (mConfig g)) (called BaseInit g)).
  { cbn [mConfig called]. case_decide as Hc.
    - by rewrite Hc.
    - apply read_configuration_files. lia. }
  rewrite E.
  destruct (read_files _ _) as [g1 r]. destruct r as [[|]| | |]; [|done..].
  destruct (decide (mHooksFileName g1 = ""%string)) as [Hh|Hh].
  - destruct (decide (PYTHIA_VERSION_INTEGER < 8300)).
    + destruct (readString _ _) as [ok1 py1]. cbn [snd].
      destruct (init _) as [ok2 py2]. by destruct ok2.
    + destruct (init _) as [ok2 py2]. by destruct ok2.
  - cbn [mHooksFileName mHooksFuncName called].
    destruct (GetFromMacro_hooks _ _) as [hooks|];
      [|unfold fatal_return_false, after_fatal; by destruct fatal_returns].
    destruct (decide (PYTHIA_VERSION_INTEGER < 8300)).
    + destruct (readString _ _) as [ok1 py1]. cbn [snd].
      destruct (init _) as [ok2 py2]. by destruct ok2.
    + destruct (init _) as [ok2 py2]. by destruct ok2.
Qed.

(** A call that has logged a fatal message has not returned [true]. *)
Lemma after_fatal_not_true : after_fatal ≠ Ok true.
Proof. unfold after_fatal. by destruct fatal_returns. Qed.

(** The calls of [Init] in each of its four outcomes. *)
Lemma Init_outcomes (g : Generator) :
  ∃ (r : result bool) (g' : Generator),
    Init_run g = (g', r)
    ∧ mConfig g' = mConfig g ∧ mHooksFileName g' = mHooksFileName g
    ∧ mHooksFuncName g' = mHooksFuncName g
    ∧ let files := config_files "" (mConfig g) in
      (r = Ok true
       ∧ calls g' = calls g ++ [BaseInit] ++ reads files ++ hook_calls g
                    ++ decay_calls ++ [PythiaInit])
      ∨ (r = after_fatal
         ∧ ∃ pre f post,
             files = pre ++ f :: post
             ∧ calls g'
               = calls g ++ [BaseInit] ++ reads (pre ++ [f])
                 ++ [LogFatal ("Failed to init 'Pythia8': problems with configuration file "
                               ++ ExpandPathName f)])
      ∨ (r = after_fatal
         ∧ mHooksFileName g ≠ ""%string
         ∧ GetFromMacro_hooks (mHooksFileName g) (mHooksFuncName g) = None
         ∧ calls g'
           = calls g ++ [BaseInit] ++ reads files
             ++ [GetFromMacro (mHooksFileName g) (mHooksFuncName g);
                 LogFatal "Failed to init 'Pythia8': problem with user hooks configuration "])
      ∨ (r = after_fatal
         ∧ calls g'
           = calls g ++ [BaseInit] ++ reads files ++ hook_calls g ++ decay_calls
             ++ [PythiaInit; LogFatal "Failed to init 'Pythia8': init returned with error"]).
Proof.
  rewrite Init_unfold.
  pose proof (read_files_calls (config_files "" (mConfig g)) (called BaseInit g)) as Hr.
  destruct (read_files _ _) as [g1 r]. cbn zeta in Hr. cbn [fst snd] in Hr.
  cbn [mConfig mHooksFileName mHooksFuncName calls called] in Hr.
  destruct Hr as (Ec & Ef & En & [[-> Hcalls]|[-> Hcalls]]).
  2:{ exists after_fatal, g1. split.
      - pose proof after_fatal_not_true as Hne.
        destruct after_fatal as [[|]| | |]; [by destruct Hne|done..].
      - do 3 (split; [done|]).
        right; left. split; [done|]. destruct Hcalls as (pre & f & post & -> & ->).
        exists pre, f, post. split; [done|]. by rewrite <- !app_assoc. }
  unfold hook_calls, decay_calls. rewrite Ef, En.
  destruct (decide (mHooksFileName g = ""%string)) as [Hh|Hh].
  - destruct (decide (PYTHIA_VERSION_INTEGER < 8300));
      destruct (init _) as [[] py2]; cbn [negb fst snd];
      eexists _, _; (split; [done|]); cbn; rewrite Ec, Ef, En, Hcalls;
      (do 3 (split; [done|])).
    + left. split; [done|]. by rewrite <- !app_assoc.
    + do 3 right. split; [done|]. by rewrite <- !app_assoc.
    + left. split; [done|]. by rewrite <- !app_assoc.
    + do 3 right. split; [done|]. by rewrite <- !app_assoc.
  - cbn [mHooksFileName mHooksFuncName called]. rewrite Ef, En.
    destruct (GetFromMacro_hooks _ _) as [hooks|] eqn:Eh.
    2:{ exists after_fatal, (called (LogFatal "Failed to init 'Pythia8': problem with user hooks configuration ")
                               (called (GetFromMacro (mHooksFileName g) (mHooksFuncName g)) g1)).
        split.
        - unfold fatal_return_false. pose proof after_fatal_not_true as Hne.
          destruct after_fatal as [[|]| | |]; [by destruct Hne|done..].
        - cbn. rewrite Ec, Ef, En, Hcalls.
          do 3 (split; [done|]). right; right; left.
          do 3 (split; [done|]). by rewrite <- !app_assoc. }
    destruct (decide (PYTHIA_VERSION_INTEGER < 8300));
      destruct (init _) as [[] py2]; cbn [negb fst snd];
      eexists _, _; (split; [done|]); cbn; rewrite Ec, Ef, En, Hcalls;
      (do 3 (split; [done|])).
    + left. split; [done|]. by rewrite <- !app_assoc.
    + do 3 right. split; [done|]. by rewrite <- !app_assoc.
    + left. split; [done|]. by rewrite <- !app_assoc.
    + do 3 right. split; [done|]. by rewrite <- !app_assoc.
Qed.

(** What a caller sees of a call that ends in [r]. *)
Lemma Init_of_run (g g' : Generator) (r : result bool) :
  Init_run g = (g', r) → Init g = (b ← r; Ok (b, g')).
Proof. unfold Init. by intros ->. Qed.

End InitOutcomes.

Lemma last_two {A : Type} (l : list A) (a b : A) : last (l ++ [a; b]) = Some b.
Proof.
  change [a; b] with ([a] ++ [b]). by rewrite (assoc_L (++) l [a] [b]), last_snoc.
Qed.

Lemma reads_no_fatal `{InitLib} (files : list string) :
  Forall (λ c, ∀ m, c ≠ LogFatal m) (reads files).
Proof. unfold reads. apply Forall_fmap, Forall_forall. by intros f _ m. Qed.

Lemma hook_calls_no_fatal (g : Generator) :
  Forall (λ c, ∀ m, c ≠ LogFatal m) (hook_calls g).
Proof. unfold hook_calls. case_decide; repeat constructor; by intros m. Qed.

Lemma decay_calls_no_fatal `{PythiaLib} :
  Forall (λ c, ∀ m, c ≠ LogFatal m) decay_calls.
Proof. unfold decay_calls. case_decide; repeat constructor; by intros m. Qed.


(** A successful [Init] has made these calls, in this order: the base class
    initialisation, one [readFile] per piece of [mConfig], the loading and
    setting of the user hooks when a hooks file is named, the switching off
    of hadron decays for a Pythia older than 8.3, and [init].  The pieces
    contain no space, and joined by single spaces they give [mConfig] back,
    up to one space that closes the last piece: two spaces in a row
    enclose an empty file name. *)
Theorem Init_success {P : PythiaLib} {L : InitLib} (g g' : Generator) :
  Init g = Ok (true, g') →
  let files := config_files "" (mConfig g) in
  calls g' = calls g ++ [BaseInit] ++ reads files ++ hook_calls g
             ++ decay_calls ++ [PythiaInit]
  ∧ Forall no_space files
  ∧ ((mConfig g = String.concat " " files ∧ last files ≠ Some ""%string)
     ∨ mConfig g = (String.concat " " files ++ " ")%string).
Proof.
  intros Hrun. cbv zeta.
  destruct (Init_outcomes g) as (r & g1 & E & _ & _ & _ & Hcases).
  rewrite (Init_of_run _ _ _ E) in Hrun.
  assert (r = Ok true ∧ g1 = g') as [-> ->].
  { destruct r as [b| | |]; try discriminate. cbn in Hrun. by injection Hrun as -> ->. }
  split.
  - destruct Hcases as [[_ ?]|[[Hr _]|[[Hr _]|[Hr _]]]]; [done|..];
      by destruct after_fatal_not_true.
  - apply (config_files_join "" (mConfig g) I).
Qed.

Lemma Init_success_witness :
  let files := config_files "" (mConfig (configured "pp.cmnd  hard.cmnd " "hooks.C")) in
  calls (mkGenerator emptyPythia "pp.cmnd  hard.cmnd " "hooks.C" "pythia8_user_hooks"
           [BaseInit; ReadFile "pp.cmnd"; ReadFile ""; ReadFile "hard.cmnd";
            GetFromMacro "hooks.C" "pythia8_user_hooks"; SetUserHooks; PythiaInit])
  = calls (configured "pp.cmnd  hard.cmnd " "hooks.C") ++ [BaseInit]
    ++ reads (H := refusing "missing.cmnd") files
    ++ hook_calls (configured "pp.cmnd  hard.cmnd " "hooks.C")
    ++ decay_calls (H := pythia83) ++ [PythiaInit]
  ∧ Forall no_space files
  ∧ ((mConfig (configured "pp.cmnd  hard.cmnd " "hooks.C") = String.concat " " files
      ∧ last files ≠ Some ""%string)
     ∨ mConfig (configured "pp.cmnd  hard.cmnd " "hooks.C")
       = (String.concat " " files ++ " ")%string).
Proof.
  apply (Init_success (P := pythia83) (L := refusing "missing.cmnd")
           (configured "pp.cmnd  hard.cmnd " "hooks.C")).
  vm_compute. reflexivity.
Defined.

(** [Init] ends in one of two ways, for every logger: it never exhausts the
    bound of its loop and no exception leaves it.  Either its last call is
    [init], no fatal message has been logged, and it returns [true]; or its
    last call is the logging of a fatal message, after which it returns
    [false] when the logger gives control back and does not return
    otherwise.  It never changes [mConfig] or the names of the hooks. *)
Theorem Init_verdict {P : PythiaLib} {L : InitLib} (g : Generator) :
  ∃ (g' : Generator) (new : list InitCall),
    calls g' = calls g ++ BaseInit :: new
    ∧ (mConfig g', mHooksFileName g', mHooksFuncName g')
      = (mConfig g, mHooksFileName g, mHooksFuncName g)
    ∧ ((Init_run g = (g', Ok true)
        ∧ Init g = Ok (true, g')
        ∧ last new = Some PythiaInit
        ∧ Forall (λ c, ∀ m, c ≠ LogFatal m) new)
       ∨ (Init_run g = (g', if fatal_returns then Ok false else Halted)
          ∧ Init g = (if fatal_returns then Ok (false, g') else Halted)
          ∧ ∃ m, last new = Some (LogFatal m))).
Proof.
  destruct (Init_outcomes g) as (r & g' & E & Ec & Ef & En & Hcases).
  cbv zeta in Hcases. exists g'.
  assert (Hfatal : r = after_fatal →
                   Init_run g = (g', if fatal_returns then Ok false else Halted)
                   ∧ Init g = (if fatal_returns then Ok (false, g') else Halted)).
  { intros ->. split; [exact E|]. rewrite (Init_of_run _ _ _ E).
    unfold after_fatal. by destruct fatal_returns. }
  destruct Hcases as [[-> Hc]|[[Hr (pre & f & post & _ & Hc)]|[[Hr (_ & _ & Hc)]|[Hr Hc]]]].
  - exists (reads (config_files "" (mConfig g)) ++ hook_calls g ++ decay_calls ++ [PythiaInit]).
    split; [done|]. split; [by rewrite Ec, Ef, En|]. left.
    split; [done|]. split; [by rewrite (Init_of_run _ _ _ E)|]. split.
    + by rewrite !(assoc_L (++)), last_snoc.
    + apply Forall_app; split; [apply reads_no_fatal|].
      apply Forall_app; split; [apply hook_calls_no_fatal|].
      apply Forall_app; split; [apply decay_calls_no_fatal|].
      repeat constructor. by intros m.
  - eexists. split; [exact Hc|]. split; [by rewrite Ec, Ef, En|]. right.
    destruct (Hfatal Hr) as [? ?]. do 2 (split; [done|]).
    rewrite last_snoc. by eexists.
  - eexists. split; [exact Hc|]. split; [by rewrite Ec, Ef, En|]. right.
    destruct (Hfatal Hr) as [? ?]. do 2 (split; [done|]).
    rewrite last_two. by eexists.
  - eexists. split; [exact Hc|]. split; [by rewrite Ec, Ef, En|]. right.
    destruct (Hfatal Hr) as [? ?]. do 2 (split; [done|]).
    rewrite !(assoc_L (++) _ _ [PythiaInit; _]), last_two. by eexists.
Qed.



(** Without configuration files and without a hooks file, [Init] ends as
    [init()] decides, the hadron decays having been switched off before for
    a Pythia older than 8.3: it returns [true] when [init()] succeeds; when
    [init()] fails it logs a fatal message, returns [false] when the logger
    gives control back, and does not return otherwise. *)
Theorem Init_bare {P : PythiaLib} {L : InitLib} (g : Generator) :
  mConfig g = ""%string → mHooksFileName g = ""%string →
  let py := if decide (PYTHIA_VERSION_INTEGER < 8300)
            then (readString (mPythia g) "HadronLevel:Decay off").2
            else mPythia g in
  ∃ g' : Generator,
    Init_run g
    = (g', if (init py).1 then Ok true
           else if fatal_returns then Ok false else Halted)
    ∧ Init g
      = (if (init py).1 then Ok (true, g')
         else if fatal_returns then Ok (false, g') else Halted)
    ∧ mPythia g' = (init py).2
    ∧ last (calls g')
      = Some (if (init py).1 then PythiaInit
              else LogFatal "Failed to init 'Pythia8': init returned with error").
Proof.
  intros Hc Hh. cbv zeta.
  assert (Hrun : ∃ g', Init_run g
                       = (g', if (init (if decide (PYTHIA_VERSION_INTEGER < 8300)
                                        then (readString (mPythia g) "HadronLevel:Decay off").2
                                        else mPythia g)).1
                              then Ok true else after_fatal)
                       ∧ mPythia g'
                         = (init (if decide (PYTHIA_VERSION_INTEGER < 8300)
                                  then (readString (mPythia g) "HadronLevel:Decay off").2
                                  else mPythia g)).2
                       ∧ last (calls g')
                         = Some (if (init (if decide (PYTHIA_VERSION_INTEGER < 8300)
                                           then (readString (mPythia g) "HadronLevel:Decay off").2
                                           else mPythia g)).1
                                 then PythiaInit
                                 else LogFatal "Failed to init 'Pythia8': init returned with error")).
  { rewrite Init_unfold, Hc. cbn [config_files].
    rewrite decide_True by done. cbn [read_files mHooksFileName called].
    rewrite decide_True by done.
    destruct (decide (PYTHIA_VERSION_INTEGER < 8300));
      cbn [mPythia with_pythia called];
      destruct (init _) as [[] py2]; cbn [negb fst snd];
      eexists; (split; [done|]); (split; [done|]);
      cbn [calls called with_pythia fatal_return_false fst];
      by rewrite ?(assoc_L (++)), last_snoc. }
  destruct Hrun as (g' & E & Hpy & Hlast). exists g'.
  split; [|split; [|done]].
  - rewrite E. unfold after_fatal. by destruct (init _).1.
  - rewrite (Init_of_run _ _ _ E). unfold after_fatal.
    destruct (init _).1; [done|]. by destruct fatal_returns.
Qed.

Lemma Init_bare_witness :
  ∃ g' : Generator,
    Init_run (H := pythia82) (H0 := failing) (configured "" "") = (g', Ok false)
    ∧ Init (H := pythia82) (H0 := failing) (configured "" "") = Ok (false, g')
    ∧ mPythia g' = emptyPythia
    ∧ last (calls g')
      = Some (LogFatal "Failed to init 'Pythia8': init returned with error").
Proof.
  apply (Init_bare (P := pythia82) (L := failing) (configured "" ""));
    reflexivity.
Defined.

(** ** updateHeader: what reaches the header *)

Lemma getNfreeSpec_range `{RootLib} (info : Info.t) (hi : HIInfo.t)
    (spec : FreeSpec) (gRandom : TRandom) :
  Info.hiInfo info = Some hi →
  0 ≤ nFreenProj (getNfreeSpec info spec gRandom).1 ≤ 126
  ∧ 0 ≤ nFreepProj (getNfreeSpec info spec gRandom).1 ≤ 82
  ∧ 0 ≤ nFreenTarg (getNfreeSpec info spec gRandom).1 ≤ 126
  ∧ 0 ≤ nFreepTarg (getNfreeSpec info spec gRandom).1 ≤ 82.
Proof.
  intros Hhi. unfold getNfreeSpec. rewrite Hhi. cbn [fold_left].
  pose proof (freeNeutrons_clamped (HIInfo.b hi) 0 [0; 0] gRandom) as N0.
  destruct (freeNeutrons (HIInfo.b hi) 0 ([0; 0], gRandom)) as [n0 g0].
  cbn [fst length] in N0. destruct N0 as (Ln0 & Vn0 & _); [lia|].
  pose proof (freeNeutrons_clamped (HIInfo.b hi) 1 n0 g0) as N1.
  destruct (freeNeutrons (HIInfo.b hi) 1 (n0, g0)) as [n1 g1].
  cbn [fst] in N1. destruct N1 as (Ln1 & Vn1 & On1); [lia|].
  pose proof (freeProtons_clamped (HIInfo.b hi) 0 [0; 0] g1) as P0.
  destruct (freeProtons (HIInfo.b hi) 0 ([0; 0], g1)) as [p0 g2].
  cbn [fst length] in P0. destruct P0 as (Lp0 & Vp0 & _); [lia|].
  pose proof (freeProtons_clamped (HIInfo.b hi) 1 p0 g2) as P1.
  destruct (freeProtons (HIInfo.b hi) 1 (p0, g2)) as [p1 g3].
  cbn [fst] in P1. destruct P1 as (Lp1 & Vp1 & Op1); [lia|].
  cbn [fst nFreenProj nFreenTarg nFreepProj nFreepTarg].
  rewrite (On1 0%nat), (Op1 0%nat) by done. lia.
Qed.

Lemma getNremn_loop_range (event : Event) :
  counts_in_range (st_counts (getNremn_loop event)).
Proof.
  unfold getNremn_loop.
  assert (H0 : counts_in_range (st_counts (mkNremnState zeroCounts 0)))
    by (constructor; cbn; lia).
  revert H0. generalize (mkNremnState zeroCounts 0).
  induction event as [|p l IH]; intros st Hst; [done|].
  cbn [fold_left]. by apply IH, getNremn_body_range.
Qed.

(** Rewriting of the lookups in a header that has been written to. *)
Ltac header_lookup :=
  cbn [mEventInfo putInfo SetB fB];
  repeat first
    [ rewrite lookup_insert_eq
    | rewrite lookup_insert_ne by (intros ?; discriminate) ];
  try done.

Section HeaderProperties.

Context `{PythiaLib} `{RootLib} `{ProcessInfo}.

(** Without heavy-ion information [updateHeader] writes the generator name,
    the library version and the name and code of the process, and nothing
    else: every other entry of the header, its impact parameter and the
    random generator are left as they were. *)
Theorem updateHeader_general (mPythia : Pythia.t) (locals : HeaderLocals)
    (gRandom : TRandom) (eventHeader : MCEventHeader) :
  Info.hiInfo (Pythia.info mPythia) = None →
  ∃ h : MCEventHeader,
    updateHeader mPythia locals gRandom eventHeader = Ok (h, gRandom)
    ∧ fB h = fB eventHeader
    ∧ mEventInfo h !! "generator"%string = Some (InfoString "pythia8")
    ∧ mEventInfo h !! "version"%string = Some (InfoInt PYTHIA_VERSION_INTEGER)
    ∧ mEventInfo h !! "processName"%string
      = Some (InfoString (info_name (Pythia.info mPythia)))
    ∧ mEventInfo h !! "processCode"%string
      = Some (InfoInt (info_code (Pythia.info mPythia)))
    ∧ ∀ key, key ∉ general_keys →
             mEventInfo h !! key = mEventInfo eventHeader !! key.
Proof.
  intros Hhi. unfold updateHeader. rewrite Hhi. eexists. split; [done|].
  split; [done|]. do 4 (split; [header_lookup|]).
  intros key Hkey. unfold general_keys in Hkey.
  rewrite !not_elem_of_cons in Hkey. destruct Hkey as (? & ? & ? & ? & _).
  cbn [mEventInfo putInfo]. by rewrite !lookup_insert_ne by done.
Qed.

(** With heavy-ion information [updateHeader] succeeds, and the header and
    the random generator that it leaves are the same whatever its locals,
    which are not initialised, held before.  It sets the impact parameter
    and writes it under "Bimpact"; "Ncoll" is the result of [getNcoll] and
    lies between 0 and the number of sub-collisions; the four "Npart_"
    entries are the counters of [getNpart] and "Npart" is their sum; the
    four "Nremn_" entries are the counts of [getNremn] on the generator's
    event, between 0 and 999 for protons and between -999 and 999 for
    neutrons; the four "Nfree_" entries are the counts of [getNfreeSpec]
    drawn on the random generator, in [0, 126] for neutrons and [0, 82]
    for protons.  The entries under other names are left as they were. *)
Theorem updateHeader_heavy_ion (mPythia : Pythia.t) (hi : HIInfo.t)
    (gRandom : TRandom) (eventHeader : MCEventHeader) :
  Info.hiInfo (Pythia.info mPythia) = Some hi →
  ∃ (h : MCEventHeader) (gRandom' : TRandom) (nColl : Z)
    (nPart nRemn : Counts) (nFree : FreeSpec) (warned : bool),
    (∀ locals : HeaderLocals,
       updateHeader mPythia locals gRandom eventHeader = Ok (h, gRandom'))
    ∧ (∀ n, getNcoll (Pythia.info mPythia) n = nColl)
    ∧ (∀ c, getNpart (Pythia.info mPythia) c = nPart)
    ∧ (∀ c, getNremn (Pythia.event mPythia) c = Ok (nRemn, warned))
    ∧ (∀ s, getNfreeSpec (Pythia.info mPythia) s gRandom = (nFree, gRandom'))
    ∧ fB h = HIInfo.b hi
    ∧ mEventInfo h !! "Bimpact"%string = Some (InfoDouble (HIInfo.b hi))
    ∧ mEventInfo h !! "Ncoll"%string = Some (InfoInt nColl)
    ∧ mEventInfo h !! "Npart"%string
      = Some (InfoInt (nProtonProj nPart + nNeutronProj nPart
                       + nProtonTarg nPart + nNeutronTarg nPart))
    ∧ (mEventInfo h !! "Npart_proj_p"%string = Some (InfoInt (nProtonProj nPart))
       ∧ mEventInfo h !! "Npart_proj_n"%string = Some (InfoInt (nNeutronProj nPart))
       ∧ mEventInfo h !! "Npart_targ_p"%string = Some (InfoInt (nProtonTarg nPart))
       ∧ mEventInfo h !! "Npart_targ_n"%string = Some (InfoInt (nNeutronTarg nPart)))
    ∧ (mEventInfo h !! "Nremn_proj_p"%string = Some (InfoInt (nProtonProj nRemn))
       ∧ mEventInfo h !! "Nremn_proj_n"%string = Some (InfoInt (nNeutronProj nRemn))
       ∧ mEventInfo h !! "Nremn_targ_p"%string = Some (InfoInt (nProtonTarg nRemn))
       ∧ mEventInfo h !! "Nremn_targ_n"%string = Some (InfoInt (nNeutronTarg nRemn)))
    ∧ (mEventInfo h !! "Nfree_proj_n"%string = Some (InfoInt (nFreenProj nFree))
       ∧ mEventInfo h !! "Nfree_proj_p"%string = Some (InfoInt (nFreepProj nFree))
       ∧ mEventInfo h !! "Nfree_targ_n"%string = Some (InfoInt (nFreenTarg nFree))
       ∧ mEventInfo h !! "Nfree_targ_p"%string = Some (InfoInt (nFreepTarg nFree)))
    ∧ 0 ≤ nColl ≤ Z.of_nat (length (HIInfo.subCollisions hi))
    ∧ (0 ≤ nProtonProj nRemn ≤ 999 ∧ -999 ≤ nNeutronProj nRemn ≤ 999
       ∧ 0 ≤ nProtonTarg nRemn ≤ 999 ∧ -999 ≤ nNeutronTarg nRemn ≤ 999)
    ∧ (0 ≤ nFreenProj nFree ≤ 126 ∧ 0 ≤ nFreepProj nFree ≤ 82
       ∧ 0 ≤ nFreenTarg nFree ≤ 126 ∧ 0 ≤ nFreepTarg nFree ≤ 82)
    ∧ ∀ key, key ∉ general_keys ++ heavy_ion_keys →
             mEventInfo h !! key = mEventInfo eventHeader !! key.
Proof.
  intros Hhi.
  assert (Hfree_any : ∀ s, getNfreeSpec (Pythia.info mPythia) s gRandom
                           = getNfreeSpec (Pythia.info mPythia) (mkFreeSpec 0 0 0 0) gRandom).
  { intros s. unfold getNfreeSpec. by rewrite Hhi. }
  pose proof (getNfreeSpec_range (Pythia.info mPythia) hi (mkFreeSpec 0 0 0 0)
                gRandom Hhi) as Hfree.
  pose proof (getNremn_loop_range (Pythia.event mPythia)) as [Rpp Rnp Rpt Rnt].
  destruct (getNfreeSpec (Pythia.info mPythia) (mkFreeSpec 0 0 0 0) gRandom)
    as [free g'] eqn:Efree.
  cbn [fst] in Hfree.
  set (c := getNpart (Pythia.info mPythia) zeroCounts).
  set (l0 := mkHeaderLocals 0 0 zeroCounts zeroCounts zeroCounts (mkFreeSpec 0 0 0 0)).
  assert (Hany : ∀ locals,
             updateHeader mPythia locals gRandom eventHeader
             = updateHeader mPythia l0 gRandom eventHeader).
  { intros locals. unfold updateHeader.
    rewrite Hhi, !getNremn_fold. cbn [mbind result_bind rbind].
    by rewrite !Hfree_any. }
  eassert (E0 : updateHeader mPythia l0 gRandom eventHeader = Ok (_, g')).
  { unfold updateHeader. rewrite Hhi, getNremn_fold. cbn [mbind result_bind rbind].
    rewrite Hfree_any. reflexivity. }
  match type of E0 with _ = Ok (?h, _) => exists h end.
  exists g', (getNcoll (Pythia.info mPythia) 0), c,
    (st_counts (getNremn_loop (Pythia.event mPythia))), free.
  eexists.
  split; [intros locals; by rewrite Hany|].
  split; [done|]. split; [done|].
  split; [intros c'; apply getNremn_fold|]. split; [exact Hfree_any|].
  split; [done|]. do 3 (split; [header_lookup|]).
  do 3 (split; [do 3 (split; [header_lookup|]); header_lookup|]).
  split.
  { unfold getNcoll. rewrite Hhi, getNcoll_fold.
    pose proof (length_filter (both_absorbed hi) (HIInfo.subCollisions hi)). lia. }
  split; [done|]. split; [lia|].
  intros key Hkey. unfold general_keys, heavy_ion_keys in Hkey. cbn [app] in Hkey.
  rewrite !not_elem_of_cons in Hkey.
  destruct Hkey as (?&?&?&?&?&?&?&?&?&?&?&?&?&?&?&?&?&?&?&_).
  cbn [mEventInfo putInfo SetB]. by rewrite !lookup_insert_ne by done.
Qed.

End HeaderProperties.

Lemma updateHeader_general_witness :
  ∃ h : MCEventHeader,
    updateHeader (H := pythia83) (H0 := linearRoot) (H1 := softQCD)
      decayPythia staleLocals 0 userHeader = Ok (h, 0)
    ∧ fB h = fB userHeader
    ∧ mEventInfo h !! "generator"%string = Some (InfoString "pythia8")
    ∧ mEventInfo h !! "version"%string
      = Some (InfoInt (PYTHIA_VERSION_INTEGER (PythiaLib := pythia83)))
    ∧ mEventInfo h !! "processName"%string
      = Some (InfoString (info_name (ProcessInfo := softQCD) (Pythia.info decayPythia)))
    ∧ mEventInfo h !! "processCode"%string
      = Some (InfoInt (info_code (ProcessInfo := softQCD) (Pythia.info decayPythia)))
    ∧ ∀ key, key ∉ general_keys →
             mEventInfo h !! key = mEventInfo userHeader !! key.
Proof.
  apply (updateHeader_general (H := pythia83) (H0 := linearRoot) (H1 := softQCD)
           decayPythia staleLocals 0 userHeader).
  reflexivity.
Defined.

(** One remnant of lead on the projectile side, three sub-collisions of
    which two are binary collisions. *)
Lemma updateHeader_heavy_ion_witness :
  ∃ h : MCEventHeader,
    (∀ locals : HeaderLocals,
       updateHeader (H := pythia83) (H0 := linearRoot) (H1 := softQCD)
         heavyIonPythia locals 0 userHeader = Ok (h, 4))
    ∧ fB h = 0%float
    ∧ mEventInfo h !! "Ncoll"%string = Some (InfoInt 2)
    ∧ mEventInfo h !! "Npart"%string = Some (InfoInt 4)
    ∧ mEventInfo h !! "Nremn_proj_p"%string = Some (InfoInt 82)
    ∧ mEventInfo h !! "Nremn_proj_n"%string = Some (InfoInt 126)
    ∧ mEventInfo h !! "Nremn_targ_p"%string = Some (InfoInt 0)
    ∧ mEventInfo h !! "Nfree_proj_n"%string = Some (InfoInt 62)
    ∧ mEventInfo h !! "Nfree_proj_p"%string = Some (InfoInt 53)
    ∧ mEventInfo h !! "user"%string = Some (InfoInt 1).
Proof.
  destruct (updateHeader_heavy_ion (H := pythia83) (H0 := linearRoot) (H1 := softQCD)
              heavyIonPythia
              (HIInfo.mk 0%float
                 [SubCollision.mk 1 11; SubCollision.mk 1 12; SubCollision.mk 3 12]
                 nucleons)
              0 userHeader eq_refl)
    as (h & g' & nColl & nPart & nRemn & nFree & w & Hrun & Hcoll & Hpart & Hremn
        & Hfree & HB & _ & Hc & Hp & _ & (Hr1 & Hr2 & Hr3 & _) & (Hf1 & Hf2 & _)
        & _ & _ & _ & Hframe).
  specialize (Hcoll 0). specialize (Hpart zeroCounts). specialize (Hremn zeroCounts).
  specialize (Hfree (mkFreeSpec 0 0 0 0)).
  vm_compute in Hcoll, Hpart, Hremn, Hfree.
  injection Hremn as <- _. injection Hfree as <- <-. subst nColl nPart.
  exists h. split; [exact Hrun|]. split; [exact HB|].
  split; [exact Hc|]. split; [exact Hp|].
  split; [exact Hr1|]. split; [exact Hr2|]. split; [exact Hr3|].
  split; [exact Hf1|]. split; [exact Hf2|].
  rewrite Hframe; [reflexivity|].
  unfold general_keys, heavy_ion_keys. cbn [app]. rewrite !not_elem_of_cons.
  repeat split; try discriminate. apply not_elem_of_nil.
Defined.
